(** * bps_torch: a shallow embedding of [bps_torch/bps.py]

    The development follows the Python source line by line.  Torch tensors
    are modelled as a shape together with the row-major list of their
    entries; the handful of torch operations that [bps.py] uses are given
    their broadcasting and failure behaviour; the nearest-neighbour kernel
    ([chamfer_distance]) and the point-to-surface routine are black boxes
    of the source and are parameters here.  Python exceptions are values of
    [exn]; a function that may raise returns a [result]. *)

From Stdlib Require Import ZArith QArith Lia.
From stdpp Require Import base list strings gmap.

Set Default Proof Using "Type".

(** ** Exceptions *)

Inductive exn : Type :=
  | ValueError (msg : string)
  | IndexError
  | RuntimeError
  | AttributeError
  | ZeroDivisionError
  | OracleFailure.

Inductive result (A : Type) : Type :=
  | Ok (a : A)
  | Err (e : exn).
Arguments Ok {A} a.
Arguments Err {A} e.

#[global] Instance result_ret : MRet result := λ A a, Ok a.
#[global] Instance result_bind : MBind result := λ A B f r,
  match r with Ok a => f a | Err e => Err e end.

Definition is_Ok {A} (r : result A) : Prop := ∃ a, r = Ok a.

(** A configuration error is one of the [ValueError]s that [bps.py]
    raises; every other exception comes from torch or from an oracle. *)
Definition configuration_error (e : exn) : bool :=
  match e with ValueError _ => true | _ => false end.

(** ** Tensors *)

Record tensor (A : Type) : Type := Tensor { shape : list nat; data : list A }.
Arguments Tensor {A} shape data.
Arguments shape {A} t.
Arguments data {A} t.

Definition numel (s : list nat) : nat := foldr Nat.mul 1 s.
Definition ndim {A} (t : tensor A) : nat := length (shape t).
Definition wf {A} (t : tensor A) : Prop := length (data t) = numel (shape t).

(** All multi-indices of a shape, in row-major order. *)
Fixpoint indices (s : list nat) : list (list nat) :=
  match s with
  | [] => [[]]
  | n :: s' => i ← seq 0 n; (i ::.) <$> indices s'
  end.

(** Row-major offset of a multi-index. *)
Fixpoint ravel (s idx : list nat) : nat :=
  match s, idx with
  | _ :: s', i :: idx' => i * numel s' + ravel s' idx'
  | _, _ => 0
  end.

Definition in_range (s idx : list nat) : Prop := Forall2 lt idx s.

Definition tget {A} `{Inhabited A} (t : tensor A) (idx : list nat) : A :=
  default inhabitant (data t !! ravel (shape t) idx).

(** The tensor of shape [s] whose entry at [idx] is [f idx]. *)
Definition tabulate {A} (s : list nat) (f : list nat → A) : tensor A :=
  Tensor s (f <$> indices s).

Definition tmap {A B} (f : A → B) (t : tensor A) : tensor B :=
  Tensor (shape t) (f <$> data t).


(** ** The torch operations used by [bps.py]

    Each definition names the torch expression it stands for.  Shapes are
    compared from the last dimension backwards, as torch's broadcasting
    does, hence the [_rev] helpers on reversed shapes. *)

(** Size of one broadcast dimension. *)
Definition bdim (x y : nat) : option nat :=
  if x =? y then Some x
  else if x =? 1 then Some y
  else if y =? 1 then Some x
  else None.

Fixpoint bshape_rev (a b : list nat) : option (list nat) :=
  match a, b with
  | [], s | s, [] => Some s
  | x :: a', y :: b' => d ← bdim x y; r ← bshape_rev a' b'; Some (d :: r)
  end.

Definition broadcast_shapes (a b : list nat) : option (list nat) :=
  reverse <$> bshape_rev (reverse a) (reverse b).

(** Where an operand of shape [s] is read for the output index [idx]:
    dimensions of size 1 are read at 0, missing leading output positions
    are dropped, missing leading operand positions are read at 0. *)
Fixpoint clamp_rev (s idx : list nat) : list nat :=
  match s with
  | [] => []
  | x :: s' =>
      match idx with
      | k :: idx' => (if x =? 1 then 0 else k) :: clamp_rev s' idx'
      | [] => 0 :: clamp_rev s' []
      end
  end.

Definition bidx (s idx : list nat) : list nat :=
  reverse (clamp_rev (reverse s) (reverse idx)).

(** [src] may be written into a slot of shape [dst]: torch drops the
    leading 1s of [src] and then expands it to [dst]. *)
Fixpoint assignable_rev (src dst : list nat) : bool :=
  match src, dst with
  | [], _ => true
  | x :: src', y :: dst' => ((x =? y) || (x =? 1)) && assignable_rev src' dst'
  | x :: src', [] => (x =? 1) && assignable_rev src' []
  end.

Fixpoint expandable_rev (src tgt : list nat) : bool :=
  match src, tgt with
  | [], _ => true
  | x :: src', y :: tgt' => ((x =? y) || (x =? 1)) && expandable_rev src' tgt'
  | _ :: _, [] => false
  end.

(** [index.size(d) <= input.size(d)] for every [d] except [skip]. *)
Fixpoint dims_le (skip : nat) (index input : list nat) : bool :=
  match index, input with
  | [], [] => true
  | x :: index', y :: input' =>
      match skip with
      | 0 => forallb (λ p, fst p <=? snd p) (zip index' input')
      | S k => (x <=? y) && dims_le k index' input'
      end
  | _, _ => false
  end.

Section torch.
Context {A : Type} `{Inhabited A}.

(** [torch.zeros(s)] *)
Definition full (s : list nat) (a : A) : tensor A := tabulate s (λ _, a).

(** [t.unsqueeze(0)] *)
Definition unsqueeze0 (t : tensor A) : tensor A :=
  Tensor (1 :: shape t) (data t).

(** [t[lo:hi]] *)
Definition slice0 (t : tensor A) (lo hi : nat) : result (tensor A) :=
  match shape t with
  | [] => Err IndexError
  | n :: rest =>
      let lo' := lo `min` n in
      let hi' := hi `min` n in
      Ok (tabulate ((hi' - lo') :: rest)
            (λ o, match o with
                  | i :: r => tget t ((lo' + i) :: r)
                  | [] => inhabitant
                  end))
  end.

(** [t[:, idx]] for an integer tensor [idx] *)
Definition index1 (t : tensor A) (idx : tensor nat) : result (tensor A) :=
  match shape t with
  | a :: b :: rest =>
      if forallb (λ i, i <? b) (data idx) then
        let k := ndim idx in
        Ok (tabulate (a :: shape idx ++ rest)
              (λ o, match o with
                    | i :: o' => tget t (i :: tget idx (take k o') :: drop k o')
                    | [] => inhabitant
                    end))
      else Err IndexError
  | _ => Err IndexError
  end.

(** [a op b] with broadcasting *)
Definition tzip (f : A → A → A) (a b : tensor A) : result (tensor A) :=
  match broadcast_shapes (shape a) (shape b) with
  | Some s =>
      Ok (tabulate s (λ o, f (tget a (bidx (shape a) o))
                             (tget b (bidx (shape b) o))))
  | None => Err RuntimeError
  end.

(** [dst[i] = src] *)
Definition setitem0 (dst : tensor A) (i : nat) (src : tensor A)
  : result (tensor A) :=
  match shape dst with
  | n :: rest =>
      if i <? n then
        if assignable_rev (reverse (shape src)) (reverse rest) then
          Ok (tabulate (shape dst)
                (λ o, match o with
                      | j :: r => if j =? i then tget src (bidx (shape src) r)
                                  else tget dst o
                      | [] => inhabitant
                      end))
        else Err RuntimeError
      else Err IndexError
  | [] => Err IndexError
  end.

(** [t.view(s)] *)
Definition view (t : tensor A) (s : list nat) : result (tensor A) :=
  if numel (shape t) =? numel s then Ok (Tensor s (data t))
  else Err RuntimeError.

(** [t.reshape(pre, -1, post)] *)
Definition reshape_infer (t : tensor A) (pre post : list nat)
  : result (tensor A) :=
  let known := numel pre * numel post in
  if known =? 0 then Err RuntimeError
  else if numel (shape t) mod known =? 0
       then Ok (Tensor (pre ++ numel (shape t) / known :: post) (data t))
       else Err RuntimeError.

(** [t.expand(s)] *)
Definition expand (t : tensor A) (s : list nat) : result (tensor A) :=
  if expandable_rev (reverse (shape t)) (reverse s)
  then Ok (tabulate s (λ o, tget t (bidx (shape t) o)))
  else Err RuntimeError.

(** [t.gather(1, index)].  The result has the shape of [index].  Torch
    checks that dimension 1 exists, then answers an [index] without
    entries at once, with the empty tensor of its shape, and only then
    compares the sizes and the index values. *)
Definition gather1 (t : tensor A) (index : tensor nat) : result (tensor A) :=
  let out := tabulate (shape index) (λ o, tget t (<[1 := tget index o]> o)) in
  match shape t with
  | _ :: b :: _ =>
      if numel (shape index) =? 0 then Ok out
      else if dims_le 1 (shape index) (shape t)
              && forallb (λ i, i <? b) (data index)
      then Ok out
      else Err RuntimeError
  | _ => Err IndexError
  end.

(** [t.sum(dim)], with the sum written as a fold of [add] from [zero] *)
Definition tsum (add : A → A → A) (zero : A) (t : tensor A) (dim : nat)
  : result (tensor A) :=
  match shape t !! dim with
  | Some n =>
      Ok (tabulate (delete dim (shape t))
            (λ o, foldr add zero
                    ((λ k, tget t (take dim o ++ k :: drop dim o)) <$> seq 0 n)))
  | None => Err IndexError
  end.

(** [t.repeat(n, 1, 1)] *)
Definition repeat3 (t : tensor A) (n : nat) : result (tensor A) :=
  let pad := 3 - ndim t in
  if 3 <? ndim t then Err RuntimeError
  else match replicate pad 1 ++ shape t with
       | a :: rest =>
           Ok (tabulate (a * n :: rest)
                 (λ o, match o with
                       | i :: r => tget t (drop pad ((i mod a) :: r))
                       | [] => inhabitant
                       end))
       | [] => Err RuntimeError
       end.
End torch.

(** [N, P, D = t.shape], with the messages of CPython's [ValueError]. *)
Definition unpack3 (s : list nat) : result (nat * nat * nat) :=
  match s with
  | [] => Err (ValueError "not enough values to unpack (expected 3, got 0)")
  | [_] => Err (ValueError "not enough values to unpack (expected 3, got 1)")
  | [_; _] => Err (ValueError "not enough values to unpack (expected 3, got 2)")
  | [a; b; c] => Ok (a, b, c)
  | _ => Err (ValueError "too many values to unpack (expected 3)")
  end.

(** Python's [for] loop over a list, threading the loop state and
    stopping at the first exception. *)
Fixpoint for_each {St I} (body : St → I → result St) (s : St) (l : list I)
  : result St :=
  match l with
  | [] => Ok s
  | i :: l' => s' ← body s i; for_each body s' l'
  end.

Definition raise_none {A} (e : exn) (o : option A) : result A :=
  match o with Some a => Ok a | None => Err e end.

(** ** Numbers

    The entries of the float tensors.  [bps.py] only adds, subtracts,
    multiplies, negates and takes square roots of them; [thousand] is the
    literal [1000.0]. *)
Class Scalar (T : Type) : Type := {
  zero : T;
  add : T → T → T;
  sub : T → T → T;
  mul : T → T → T;
  opp : T → T;
  sqrt : T → T;
  thousand : T;
}.

(** An entry read outside the stored ones is [zero]; the instance comes
    before the library's own. *)
#[global] Instance scalar_inhabited `{Scalar T} : Inhabited T | 0 := populate zero.

(** Integer coordinates: an exact arithmetic to run the model on. *)
#[global] Instance Z_scalar : Scalar Z := {|
  zero := 0%Z;
  add := Z.add;
  sub := Z.sub;
  mul := Z.mul;
  opp := Z.opp;
  sqrt := Z.sqrt;
  thousand := 1000%Z;
|}.

(** ** The feature bundle

    [enc_points] and [enc_mesh] return a Python dict from feature name to
    tensor; the index tensors are integer tensors. *)
Inductive value (T : Type) : Type :=
  | VFloat (t : tensor T)
  | VLong (t : tensor nat).
Arguments VFloat {T} t.
Arguments VLong {T} t.

Abbreviation bundle T := (gmap string (value T)).

(** The object: [self.bps] is its only attribute. *)
Record bps_torch (T : Type) : Type := BpsTorch { bps : tensor T }.
Arguments BpsTorch {T} bps.
Arguments bps {T} _.

Definition msg_no_custom_basis : string :=
  "Custom BPS arrangement selected, but no custom_basis provided.".
Definition msg_invalid_basis : string :=
  "Invalid basis type. Supported types: 'random_uniform', 'random_nonuniform', 'grid_cube', 'grid_sphere', and 'custom'".
Definition msg_no_x_features : string :=
  "No x_features parameter is provided!".
Definition msg_invalid_cell : string :=
  "Invalid cell type. Supported types: 'dists', 'deltas', 'closest', 'features'".
Definition msg_invalid_input : string :=
  "Invalid input: Please give either 'pointclouds' or 'meshes' as the argument to compute BPS.".
Definition msg_only_dists : string :=
  "bps_torch currently only supports dists!".

(** ** The grid size of [grid_cube]

    [np.power(n_bps_points, 1 / n_dims)] is a float64, and a finite
    float64 is a rational number.  [np.round] takes it to the nearest
    integer, a value half-way between two integers to the even one, and
    [int] of that is exact. *)
Definition np_round (q : Q) : Z :=
  let d := Z.pos (Qden q) in
  let f := (Qnum q / d)%Z in
  let twice := (2 * (Qnum q mod d))%Z in
  if (twice <? d)%Z then f
  else if (d <? twice)%Z then (f + 1)%Z
  else if Z.even f then f else (f + 1)%Z.

(** ** [class bps_torch]

    Device placement ([x.device], [.to(device)]) and [to_tensor] move or
    wrap a tensor without changing its entries and are left out. *)
Section bps.
Context {T : Type} `{Scalar T}.

(** The oracles.  [ch_dist Y X] is the third of the four values
    [chd.ChamferDistance()(Y, X)] returns, the index of the nearest point
    of [X] for every point of [Y]; the other three are not used by
    [bps.py].  [point2surface] takes the batch of meshes and the points
    of the [Pointclouds] built from the scaled basis.  [None] stands for
    an exception raised inside the oracle. *)
Variable ch_dist : tensor T → tensor T → option (tensor nat).
Variable mesh : Type.
Variable point2surface : list mesh → tensor T → option (tensor T).

(** The samplers of [tools.py]: pure functions returning an array, taken
    as they are, each with the arguments [__init__] passes to it.
    [sample_grid_cube] is called with [grid_size], [minv] and [maxv]
    only. *)
Variable sample_sphere_uniform : nat → nat → T → Z → tensor T.
Variable sample_sphere_nonuniform : nat → nat → T → Z → tensor T.
Variable sample_grid_cube : Z → T → T → tensor T.
Variable sample_grid_sphere : nat → nat → T → bool → tensor T.

(** [np.power(n_bps_points, 1 / n_dims)] for [n_dims] other than 0: the
    float64 numpy computes, taken as it is. *)
Variable np_power : nat → nat → Q.

(** [int(np.round(np.power(n_bps_points, 1 / n_dims)))] *)
Definition grid_size (n_bps_points n_dims : nat) : Z :=
  np_round (np_power n_bps_points n_dims).

(** [bps_torch.__init__] *)
Definition init (bps_type : string) (n_bps_points : nat) (radius : T)
    (n_dims : nat) (random_seed : Z) (randomize : bool)
    (custom_basis : option (tensor T)) : result (bps_torch T) :=
  let bps_type := if custom_basis is Some _ then "custom" else bps_type in
  basis_set ←
    (if (bps_type =? "random_uniform")%string then
       Ok (sample_sphere_uniform n_bps_points n_dims radius random_seed)
     else if (bps_type =? "random_nonuniform")%string then
       Ok (sample_sphere_nonuniform n_bps_points n_dims radius random_seed)
     else if (bps_type =? "grid_cube")%string then
       if n_dims =? 0 then Err ZeroDivisionError
       else
         let grid_size := grid_size n_bps_points n_dims in
         Ok (sample_grid_cube grid_size (opp radius) radius)
     else if (bps_type =? "grid_sphere")%string then
       Ok (sample_grid_sphere n_bps_points n_dims radius randomize)
     else if (bps_type =? "custom")%string then
       match custom_basis with
       | Some b => Ok b
       | None => Err (ValueError msg_no_custom_basis)
       end
     else Err (ValueError msg_invalid_basis));
  b ← reshape_infer basis_set [1] [n_dims];
  Ok (BpsTorch b).

(** One turn of the loop of [enc_points]. *)
Definition enc_points_step (bps x : tensor T) (Nb N : nat)
    (st : tensor T * tensor nat) (fid : nat)
  : result (tensor T * tensor nat) :=
  let '(deltas, b2x_idxs) := st in
  Y ← (if Nb =? N then slice0 bps fid (fid + 1) else Ok bps);
  X ← slice0 x fid (fid + 1);
  b2x_idx ← raise_none OracleFailure (ch_dist Y X);
  picked ← index1 X b2x_idx;
  diff ← tzip sub picked Y;
  deltas ← setitem0 deltas fid diff;
  b2x_idxs ← setitem0 b2x_idxs fid b2x_idx;
  Ok (deltas, b2x_idxs).

(** The part of [enc_points] up to the end of the loop: the promoted
    input, the shapes, and the filled [deltas] and [b2x_idxs]. *)
Definition enc_points_loop (self : bps_torch T) (x : tensor T)
    (custom_basis : option (tensor T))
  : result (tensor T * (nat * nat * nat) * (tensor T * tensor nat)) :=
  let x := if 2 <? ndim x then x else unsqueeze0 x in
  let bps := if custom_basis is Some b then b else bps self in
  '(Nb, P_bps, _) ← unpack3 (shape bps);
  '(N, P_x, D) ← unpack3 (shape x);
  let deltas := full [N; P_bps; D] zero in
  let b2x_idxs := full [N; P_bps] 0 in
  st ← for_each (enc_points_step bps x Nb N) (deltas, b2x_idxs) (seq 0 N);
  Ok (x, (N, P_bps, D), st).

(** The [try] block of the ['features'] branch. *)
Definition gather_features (x : tensor T) (b2x_idxs : tensor nat)
    (N P_bps : nat) (x_features : option (tensor T)) : result (tensor T) :=
  xf ← raise_none AttributeError x_features;
  F ← raise_none IndexError (shape xf !! 2);
  v ← view b2x_idxs [N; P_bps; 1];
  b2x_idxs_expanded ← expand v [N; P_bps; F];
  gather1 x b2x_idxs_expanded.

(** The part of [enc_points] after the loop. *)
Definition enc_points_features (x : tensor T) (N P_bps D : nat)
    (deltas : tensor T) (b2x_idxs : tensor nat)
    (feature_type : list string) (x_features : option (tensor T))
  : result (bundle T) :=
  let x_bps : bundle T := ∅ in
  x_bps ←
    (if bool_decide ("dists" ∈ feature_type) then
       s ← tsum add zero (tmap (λ a, mul a a) deltas) 2;
       Ok (<["dists" := VFloat (tmap sqrt s)]> x_bps)
     else Ok x_bps);
  x_bps ←
    (if bool_decide ("deltas" ∈ feature_type) then
       Ok (<["deltas" := VFloat deltas]> x_bps)
     else Ok x_bps);
  x_bps ←
    (if bool_decide ("closest" ∈ feature_type) then
       v ← view b2x_idxs [N; P_bps; 1];
       b2x_idxs_expanded ← expand v [N; P_bps; D];
       c ← gather1 x b2x_idxs_expanded;
       Ok (<["closest_ids" := VLong b2x_idxs_expanded]>
             (<["closest" := VFloat c]> x_bps))
     else Ok x_bps);
  x_bps ←
    (if bool_decide ("features" ∈ feature_type) then
       match gather_features x b2x_idxs N P_bps x_features with
       | Ok f => Ok (<["features" := VFloat f]> x_bps)
       | Err _ => Err (ValueError msg_no_x_features)
       end
     else Ok x_bps);
  if size x_bps <? 1 then Err (ValueError msg_invalid_cell)
  else Ok (<["ids" := VLong b2x_idxs]> x_bps).

(** [bps_torch.enc_points] *)
Definition enc_points (self : bps_torch T) (x : tensor T)
    (feature_type : list string) (x_features custom_basis : option (tensor T))
  : result (bundle T) :=
  '(x, (N, P_bps, D), (deltas, b2x_idxs)) ← enc_points_loop self x custom_basis;
  enc_points_features x N P_bps D deltas b2x_idxs feature_type x_features.

(** [bps_torch.enc_mesh]; the first component is what it prints. *)
Definition enc_mesh (self : bps_torch T) (x : list mesh)
    (feature_type : list string) (custom_basis : option (tensor T))
  : list string * result (bundle T) :=
  let b2o :=
    _ ← raise_none IndexError (x !! 0);
    let bps := if custom_basis is Some b then b else bps self in
    let N := length x in
    points ← repeat3 (tmap (λ a, mul a thousand) bps) N;
    raise_none OracleFailure (point2surface x points) in
  match b2o with
  | Err e => ([], Err e)
  | Ok b2o =>
      (if bool_decide ("dists" ∈ feature_type) then [] else [msg_only_dists],
       d ← reshape_infer b2o [length x] [];
       Ok {["dists" := VFloat d]})
  end.

(** What [encode] may be handed. *)
Inductive input : Type :=
  | Points (x : tensor T)
  | Meshes (x : list mesh)
  | Other.

(** [bps_torch.encode] *)
Definition encode (self : bps_torch T) (x : input)
    (feature_type : list string) (x_features custom_basis : option (tensor T))
  : list string * result (bundle T) :=
  match x with
  | Points x => ([], enc_points self x feature_type x_features custom_basis)
  | Meshes x => enc_mesh self x feature_type custom_basis
  | Other => ([], Err (ValueError msg_invalid_input))
  end.

(** [bps_torch.decode] *)
Definition decode (self : bps_torch T) (x_deltas : tensor T)
    (custom_basis : option (tensor T)) : result (tensor T) :=
  let x := if 2 <? ndim x_deltas then x_deltas else unsqueeze0 x_deltas in
  let bps := if custom_basis is Some b then b else bps self in
  let bps := if ndim bps <? 2 then unsqueeze0 bps else bps in
  '(_, P_bps, _) ← unpack3 (shape bps);
  '(N, P_x, D) ← unpack3 (shape x);
  bps_expanded ← expand bps [N; P_bps; D];
  tzip add bps_expanded x.

(** *** The contract of the nearest-neighbour oracle *)

(** What the oracle returns is a tensor: as many entries as its shape
    says. *)
Definition oracle_tensor : Prop :=
  ∀ Y X t, ch_dist Y X = Some t → wf t.

(** One index per query point: for [Y] of shape [[B, Py, D]] the index
    tensor has shape [[B, Py]]. *)
Definition oracle_shape : Prop :=
  ∀ Y X t B Py D, shape Y = [B; Py; D] → ch_dist Y X = Some t →
    shape t = [B; Py].

(** The bundle that [enc_points] builds, given the tensors its branches
    computed. *)
Definition bundle_of (ft : list string) (dists deltas closest features : tensor T)
    (closest_ids idxs : tensor nat) : bundle T :=
  let m : bundle T := ∅ in
  let m := if bool_decide ("dists" ∈ ft) then <["dists" := VFloat dists]> m else m in
  let m := if bool_decide ("deltas" ∈ ft) then <["deltas" := VFloat deltas]> m else m in
  let m := if bool_decide ("closest" ∈ ft)
           then <["closest_ids" := VLong closest_ids]> (<["closest" := VFloat closest]> m)
           else m in
  let m := if bool_decide ("features" ∈ ft) then <["features" := VFloat features]> m else m in
  <["ids" := VLong idxs]> m.

(** The loop state after the turns [0 .. k-1]: the shapes are those of
    [torch.zeros], and the rows already written hold indices of input
    points. *)
Definition filled (N P D P_x k : nat) (st : tensor T * tensor nat) : Prop :=
  shape st.1 = [N; P; D] ∧ shape st.2 = [N; P] ∧
  ∀ n p, n < k → p < P → tget st.2 [n; p] < P_x.
(** The loop state after the turns [0 .. k-1] when the basis is one set
    of [P] points shared by the batch: every written delta is the matched
    input point minus the basis point. *)
Definition matched (bps x : tensor T) (N P D P_x k : nat)
    (st : tensor T * tensor nat) : Prop :=
  filled N P D P_x k st ∧
  ∀ n p d, n < k → p < P → d < D →
    tget st.1 [n; p; d]
    = sub (tget x [n; tget st.2 [n; p]; d]) (tget bps [0; p; d]).

(** The batch item of the basis that input item [n] is matched against:
    [bps[fid : fid + 1]] when [Nb == N], the whole (one-item) basis
    otherwise. *)
Definition basis_row (Nb N n : nat) : nat := if Nb =? N then n else 0.

(** The loop state after the turns [0 .. k-1], for a basis of [Nb] items:
    every written delta is the matched input point minus the point of the
    basis item the loop picked. *)
Definition matched_rows (bps x : tensor T) (Nb N P D P_x k : nat)
    (st : tensor T * tensor nat) : Prop :=
  filled N P D P_x k st ∧
  ∀ n p d, n < k → p < P → d < D →
    tget st.1 [n; p; d]
    = sub (tget x [n; tget st.2 [n; p]; d]) (tget bps [basis_row Nb N n; p; d]).

(** Item [n] of the batch, as [x[n : n + 1]] yields it. *)
Definition item (x : tensor T) (P_x D n : nat) : tensor T :=
  tabulate [1; P_x; D]
    (λ o, match o with i :: r => tget x ((n + i) :: r) | [] => inhabitant end).

(** Rows written so far agree with what encoding each item alone gives. *)
Definition alone (bps x : tensor T) (N P D P_x k : nat)
    (st : tensor T * tensor nat) : Prop :=
  shape st.1 = [N; P; D] ∧ shape st.2 = [N; P] ∧
  ∀ n, n < k →
    ∃ d1 i1,
      enc_points_step bps (item x P_x D n) 1 1
        (full [1; P; D] zero, full [1; P] 0) 0 = Ok (d1, i1)
      ∧ (∀ p d, p < P → d < D → tget d1 [0; p; d] = tget st.1 [n; p; d])
      ∧ (∀ p, p < P → tget i1 [0; p] = tget st.2 [n; p]).

End bps.

(** ** Stand-ins for the oracles

    A brute-force nearest-neighbour search on integer points and a
    constant point-to-surface routine, to run the model on concrete
    inputs. *)
Module Ref.
Definition sqdist (a b : list Z) : Z :=
  foldr Z.add 0%Z (zip_with (λ u v, (u - v) * (u - v))%Z a b).

Definition point (t : tensor Z) (b p D : nat) : list Z :=
  (λ d, tget t [b; p; d]) <$> seq 0 D.

Fixpoint argmin (cost : nat → Z) (best : nat) (cands : list nat) : nat :=
  match cands with
  | [] => best
  | j :: cands' =>
      argmin cost (if (cost j <? cost best)%Z then j else best) cands'
  end.

Definition nearest (Y X : tensor Z) : option (tensor nat) :=
  match shape Y, shape X with
  | [B; Py; D], [_; Px; _] =>
      Some (tabulate [B; Py]
              (λ o, match o with
                    | [b; p] =>
                        argmin (λ j, sqdist (point Y b p D) (point X 0 j D))
                               0 (seq 0 Px)
                    | _ => 0
                    end))
  | _, _ => None
  end.

Definition surface (x : list unit) (points : tensor Z) : option (tensor Z) :=
  match shape points with
  | [N; P; _] => Some (full [N; P] 0%Z)
  | _ => None
  end.

Definition no_sampler {B} (n_points n_dims : nat) (radius : Z) (_ : B)
  : tensor Z := full [n_points; n_dims] radius.

(** [np.linspace(lo, hi, num)], on integers *)
Definition linspace (lo hi : Z) (num : nat) : list Z :=
  (λ i, if num <=? 1 then lo
        else (lo + (hi - lo) * Z.of_nat i / Z.of_nat (num - 1))%Z) <$> seq 0 num.

(** All points with every coordinate taken from [axis]. *)
Fixpoint grid_points (axis : list Z) (n_dims : nat) : list (list Z) :=
  match n_dims with
  | 0 => [[]]
  | S d => c ← axis; (c ::.) <$> grid_points axis d
  end.

(** Modelled from the spec: [sample_grid_cube] is defined in [tools.py],
    which is not among the sources; the spec describes it as the "regular
    axis-aligned grid inside [minv, maxv]^n_dims, with grid_size divisions
    per axis; total points = grid_size^n_dims", returned as an array of
    shape [P, D].  It is handed no [n_dims]; the dimension of its grid is
    its own, here 3, the default [n_dims] of the constructor. *)
Definition sample_grid_cube (grid_size : Z) (minv maxv : Z) : tensor Z :=
  let pts := grid_points (linspace minv maxv (Z.to_nat grid_size)) 3 in
  Tensor [length pts; 3] (concat pts).

(** The root of a count to 32 binary places, found by bisection, in place
    of numpy's float64 power. *)
Fixpoint iroot_go (fuel : nat) (lo hi m : Z) (d : nat) : Z :=
  match fuel with
  | 0 => lo
  | S fuel' =>
      let mid := ((lo + hi + 1) / 2)%Z in
      if (mid ^ Z.of_nat d <=? m)%Z then iroot_go fuel' mid hi m d
      else iroot_go fuel' lo (mid - 1)%Z m d
  end.

Definition np_power (n d : nat) : Q :=
  let m := (Z.of_nat n * 2 ^ (32 * Z.of_nat d))%Z in
  Qmake (iroot_go (S (Z.to_nat (Z.log2_up (m + 1)))) 0 m m d) (2 ^ 32).

Definition init :=
  init (T := Z) no_sampler no_sampler sample_grid_cube no_sampler np_power.

Definition grid_size := grid_size np_power.

(** A basis of two points in the plane, a batch of two clouds of three
    points, one of them on its own, and one feature per input point. *)
Definition basis : bps_torch Z := BpsTorch (Tensor [1; 2; 2] [0; 0; 10; 10]%Z).
Definition clouds : tensor Z :=
  Tensor [2; 3; 2] [1; 1; 9; 9; 5; 4; 20; 20; -3; -3; 0; 1]%Z.
Definition cloud : tensor Z := Tensor [3; 2] [1; 1; 9; 9; 5; 4]%Z.
Definition side : tensor Z := Tensor [2; 3; 1] [100; 200; 300; 400; 500; 600]%Z.

(** What [enc_points] returns for [clouds] when asked for the deltas. *)
Definition encoded : bundle Z :=
  match enc_points nearest basis clouds ["deltas"] None None with
  | Ok b => b
  | Err _ => ∅
  end.

(** A custom basis with one point for each of three batch items. *)
Definition basis3 : tensor Z := Tensor [3; 1; 2] [0; 0; 1; 1; 2; 2]%Z.

(** More inputs: the three point features asked for at once; a custom
    basis with its own two points for each of the two clouds, and its
    encoding; deltas for one cloud; a tensor of one dimension; a batch of
    one cloud without points; an oracle that always fails. *)
Definition encoded_all : bundle Z :=
  match enc_points nearest basis clouds ["dists"; "deltas"; "closest"] None None
  with
  | Ok b => b
  | Err _ => ∅
  end.
Definition per_item : tensor Z := Tensor [2; 2; 2] [0; 0; 10; 10; 1; 1; 9; 9]%Z.
Definition encoded_custom : bundle Z :=
  match enc_points nearest basis clouds ["deltas"] None (Some per_item) with
  | Ok b => b
  | Err _ => ∅
  end.
Definition offsets : tensor Z := Tensor [2; 2] [1; 1; -1; -1]%Z.
Definition line : tensor Z := Tensor [4] [1; 2; 3; 4]%Z.
Definition empty_cloud : tensor Z := Tensor [1; 0; 2] [].
Definition silent (Y X : tensor Z) : option (tensor nat) := None.
End Ref.

(** * Properties *)

(** ** Tensors and indices *)

Section tensor_facts.
Context {A : Type} `{Inhabited A}.

Lemma length_bind_blocks {B C} (g : B → list C) (l : list B) m :
  (∀ x, length (g x) = m) → length (l ≫= g) = length l * m.
Proof.
  intros Hm. induction l as [|x l IH]; csimpl; [done|].
  rewrite length_app, Hm, IH. lia.
Qed.

Lemma length_indices s : length (indices s) = numel s.
Proof.
  induction s as [|n s IH]; [done|]. csimpl.
  rewrite (length_bind_blocks _ _ (numel s)), length_seq; [done|].
  intros x. by rewrite length_fmap.
Qed.

Lemma lookup_bind_blocks {B C} (g : B → list C) (l : list B) m i j b :
  (∀ x, length (g x) = m) → l !! i = Some b → j < m →
  (l ≫= g) !! (i * m + j) = g b !! j.
Proof.
  intros Hm. revert i. induction l as [|x l IH]; intros i Hi Hj; [done|].
  destruct i as [|i]; csimpl in *.
  - simplify_eq. rewrite lookup_app_l; [done|]. rewrite Hm. lia.
  - rewrite lookup_app_r; rewrite Hm; [|lia].
    replace (m + i * m + j - m) with (i * m + j) by lia. by apply IH.
Qed.

Lemma ravel_lt s idx : in_range s idx → ravel s idx < numel s.
Proof.
  intros Hr. induction Hr as [|i n idx s Hi Hr IH]; simpl; [lia|]. nia.
Qed.

Lemma lookup_indices s idx :
  in_range s idx → indices s !! ravel s idx = Some idx.
Proof.
  intros Hr. induction Hr as [|i n idx s Hi Hr IH]; [done|]. csimpl.
  erewrite lookup_bind_blocks with (b := i).
  - by rewrite list_lookup_fmap, IH.
  - intros x. by rewrite length_fmap, length_indices.
  - by apply lookup_seq.
  - by apply ravel_lt.
Qed.

Lemma tget_tabulate s (f : list nat → A) idx :
  in_range s idx → tget (tabulate s f) idx = f idx.
Proof.
  intros Hr. unfold tget, tabulate. simpl.
  by rewrite list_lookup_fmap, lookup_indices.
Qed.

Lemma wf_tabulate s (f : list nat → A) : wf (tabulate s f).
Proof. unfold wf, tabulate. simpl. by rewrite length_fmap, length_indices. Qed.

Lemma in_range_indices s idx : idx ∈ indices s → in_range s idx.
Proof.
  revert idx. induction s as [|n s IH]; intros idx; csimpl.
  - intros ->%list_elem_of_singleton. constructor.
  - intros (i & Hidx & Hi)%list_elem_of_bind.
    apply list_elem_of_fmap in Hidx as (idx' & -> & Hidx').
    apply elem_of_seq in Hi. constructor; [lia|]. by apply IH.
Qed.
End tensor_facts.

(** ** Results and loops *)

Lemma bind_Ok {A B} (r : result A) (f : A → result B) b :
  r ≫= f = Ok b → ∃ a, r = Ok a ∧ f a = Ok b.
Proof. destruct r as [a|e]; simpl; [eauto|done]. Qed.

Lemma raise_none_Ok {A} e (o : option A) a : raise_none e o = Ok a → o = Some a.
Proof. destruct o; simpl; congruence. Qed.

Lemma unpack3_Ok s a b c : unpack3 s = Ok (a, b, c) → s = [a; b; c].
Proof.
  destruct s as [|? [|? [|? [|? ?]]]]; simpl; try done. by intros [= -> -> ->].
Qed.

Ltac inv_result :=
  repeat match goal with
  | H : (_ ≫= _) = Ok _ |- _ =>
      let a := fresh "a" in apply bind_Ok in H as (a & ? & H)
  | H : raise_none _ _ = Ok _ |- _ => apply raise_none_Ok in H
  | H : unpack3 _ = Ok (_, _, _) |- _ => apply unpack3_Ok in H
  | H : Ok _ = Ok _ |- _ => injection H as H
  | H : Err _ = Ok _ |- _ => discriminate H
  end.

Lemma for_each_seq_inv {St} (body : St → nat → result St) (I : nat → St → Prop) n :
  (∀ k s s', k < n → I k s → body s k = Ok s' → I (S k) s') →
  ∀ s s', I 0 s → for_each body s (seq 0 n) = Ok s' → I n s'.
Proof.
  intros Hstep.
  assert (∀ m a s s', a + m = n → I a s →
            for_each body s (seq a m) = Ok s' → I n s') as Hgen.
  { induction m as [|m IH]; intros a s s' Ham Ha Hrun; simpl in Hrun.
    - injection Hrun as <-. by replace n with a by lia.
    - apply bind_Ok in Hrun as (s1 & Hb & Hrun).
      apply (IH (S a) s1 s'); [lia| |done].
      apply (Hstep a s); [lia|done|done]. }
  intros s s'. by apply Hgen.
Qed.

Lemma clamp_rev_in_range s d i :
  assignable_rev s d = true → Forall2 lt i d → Forall2 lt (clamp_rev s i) s.
Proof.
  revert d i. induction s as [|x s IH]; intros d i Ha Hi; simpl; [constructor|].
  destruct Hi as [|k y i d Hk Hi]; simpl in Ha;
    apply andb_prop in Ha as [Hx Ha].
  - apply Nat.eqb_eq in Hx as ->. constructor; [lia|]. by apply (IH []).
  - constructor; [|by apply (IH d)].
    destruct (x =? 1) eqn:E1; [apply Nat.eqb_eq in E1; lia|].
    rewrite orb_false_r in Hx. apply Nat.eqb_eq in Hx. lia.
Qed.

Lemma bidx_in_range s d r :
  assignable_rev (reverse s) (reverse d) = true → in_range d r →
  in_range s (bidx s r).
Proof.
  intros Ha Hr. unfold in_range, bidx.
  rewrite <-(reverse_involutive s) at 2. apply Forall2_reverse.
  apply (clamp_rev_in_range _ (reverse d)); [done|]. by apply Forall2_reverse.
Qed.

Lemma expandable_assignable s d :
  expandable_rev s d = true → assignable_rev s d = true.
Proof.
  revert d. induction s as [|x s IH]; intros [|y d]; simpl; try done.
  intros [-> ?]%andb_prop. simpl. by apply IH.
Qed.

Lemma tget_elem_of {A} `{Inhabited A} (t : tensor A) idx :
  wf t → in_range (shape t) idx → tget t idx ∈ data t.
Proof.
  intros Hwf Hr. unfold tget.
  destruct (data t !! ravel (shape t) idx) as [a|] eqn:E.
  - by eapply list_elem_of_lookup_2.
  - apply lookup_ge_None in E. apply ravel_lt in Hr. unfold wf in Hwf. lia.
Qed.

Lemma forallb_ltb_Forall b l : forallb (λ i, i <? b) l = true → Forall (λ i, i < b) l.
Proof.
  intros Hf. apply Forall_forall. intros i Hi.
  apply Is_true_true, forallb_True in Hf.
  rewrite Forall_forall in Hf. apply Hf in Hi.
  by apply Is_true_true, Nat.ltb_lt in Hi.
Qed.

Lemma Forall_ltb_forallb b l : Forall (λ i, i < b) l → forallb (λ i, i <? b) l = true.
Proof.
  intros Hf. apply Is_true_true, forallb_True. eapply Forall_impl; [done|].
  intros i Hi. by apply Is_true_true, Nat.ltb_lt.
Qed.

Lemma in_range2 a b i j : i < a → j < b → in_range [a; b] [i; j].
Proof. intros. by repeat constructor. Qed.
Lemma in_range3 a b c i j k : i < a → j < b → k < c → in_range [a; b; c] [i; j; k].
Proof. intros. by repeat constructor. Qed.

(** ** Reading the results of the torch operations *)

Lemma clamp_lt x k : k < x → (if x =? 1 then 0 else k) = k.
Proof. intros Hk. destruct (x =? 1) eqn:E; [apply Nat.eqb_eq in E; lia|done]. Qed.

Lemma bdim_refl x : bdim x x = Some x.
Proof. unfold bdim. by rewrite Nat.eqb_refl. Qed.

Lemma bidx_same3 a b c i j k :
  i < a → j < b → k < c → bidx [a; b; c] [i; j; k] = [i; j; k].
Proof. intros. unfold bidx. simpl. by rewrite !clamp_lt. Qed.


Ltac bidx_solve :=
  intros; unfold bidx, reverse; simpl; by rewrite ?clamp_lt by done.

Lemma bidx_1P P p : p < P → bidx [1; P] [p] = [0; p].
Proof. bidx_solve. Qed.
Lemma bidx_11PD_2 P D p d : p < P → d < D → bidx [1; 1; P; D] [p; d] = [0; 0; p; d].
Proof. bidx_solve. Qed.
Lemma bidx_11PD_4 P D p d :
  p < P → d < D → bidx [1; 1; P; D] [0; 0; p; d] = [0; 0; p; d].
Proof. bidx_solve. Qed.
Lemma bidx_1PD_4 P D p d : p < P → d < D → bidx [1; P; D] [0; 0; p; d] = [0; p; d].
Proof. bidx_solve. Qed.
Lemma bidx_1PD_3 P D n p d : p < P → d < D → bidx [1; P; D] [n; p; d] = [0; p; d].
Proof. bidx_solve. Qed.

Section reads.
Context {A : Type} `{Inhabited A}.

Lemma setitem0_Ok (dst : tensor A) i src r :
  setitem0 dst i src = Ok r →
  ∃ n rest, shape dst = n :: rest ∧ i < n ∧
    assignable_rev (reverse (shape src)) (reverse rest) = true ∧
    r = tabulate (shape dst)
          (λ o, match o with
                | j :: r => if j =? i then tget src (bidx (shape src) r)
                            else tget dst o
                | [] => inhabitant
                end).
Proof.
  unfold setitem0. destruct (shape dst) as [|n rest]; [done|].
  destruct (i <? n) eqn:Ei; [|done].
  destruct (assignable_rev _ _) eqn:Ea; [|done].
  intros [= <-]. exists n, rest. apply Nat.ltb_lt in Ei. done.
Qed.


Lemma tget_setitem0 (dst : tensor A) k src dst' n rest j r :
  setitem0 dst k src = Ok dst' → shape dst = n :: rest →
  j < n → in_range rest r →
  shape dst' = shape dst ∧
  tget dst' (j :: r)
  = if j =? k then tget src (bidx (shape src) r) else tget dst (j :: r).
Proof.
  intros (n' & rest' & Hs & _ & _ & ->)%setitem0_Ok Hs' Hj Hr.
  split; [done|]. rewrite tget_tabulate; [done|].
  rewrite Hs'. by constructor.
Qed.

Lemma index1_inv (X : tensor A) idx picked a b rest :
  shape X = a :: b :: rest → index1 X idx = Ok picked →
  Forall (λ i, i < b) (data idx) ∧
  picked = tabulate (a :: shape idx ++ rest)
             (λ o, match o with
                   | i :: o' => tget X (i :: tget idx (take (ndim idx) o')
                                          :: drop (ndim idx) o')
                   | [] => inhabitant
                   end).
Proof.
  intros HX. unfold index1. rewrite HX.
  destruct (forallb _ _) eqn:Ef; [|done]. intros [= <-].
  split; [by apply forallb_ltb_Forall|done].
Qed.

Lemma index1_read (X : tensor A) idx picked P_x D P :
  index1 X idx = Ok picked → shape X = [1; P_x; D] → shape idx = [1; P] →
  shape picked = [1; 1; P; D] ∧
  ∀ p d, p < P → d < D →
    tget picked [0; 0; p; d] = tget X [0; tget idx [0; p]; d].
Proof.
  intros Hp HX Hidx. eapply index1_inv in Hp as [_ ->]; [|done].
  unfold ndim. rewrite Hidx. split; [done|]. intros p d Hp Hd.
  rewrite tget_tabulate; [done|]. repeat constructor; lia.
Qed.

Lemma tzip_read (f : A → A → A) (a b c : tensor A) P D :
  tzip f a b = Ok c → shape a = [1; 1; P; D] → shape b = [1; P; D] →
  shape c = [1; 1; P; D] ∧
  ∀ p d, p < P → d < D →
    tget c [0; 0; p; d] = f (tget a [0; 0; p; d]) (tget b [0; p; d]).
Proof.
  unfold tzip, broadcast_shapes. intros Hc Ha Hb. rewrite Ha, Hb in Hc.
  cbv [reverse rev_append] in Hc. simpl in Hc. rewrite !bdim_refl in Hc.
  simpl in Hc. injection Hc as <-. split; [done|]. intros p d Hp Hd.
  rewrite tget_tabulate by (repeat constructor; lia).
  by rewrite bidx_11PD_4, bidx_1PD_4.
Qed.

Lemma tzip_read_same (f : A → A → A) (a b c : tensor A) N P D :
  tzip f a b = Ok c → shape a = [N; P; D] → shape b = [N; P; D] →
  shape c = [N; P; D] ∧
  ∀ n p d, n < N → p < P → d < D →
    tget c [n; p; d] = f (tget a [n; p; d]) (tget b [n; p; d]).
Proof.
  unfold tzip, broadcast_shapes. intros Hc Ha Hb. rewrite Ha, Hb in Hc.
  cbv [reverse rev_append] in Hc. simpl in Hc. rewrite !bdim_refl in Hc.
  simpl in Hc. injection Hc as <-. split; [done|]. intros n p d Hn Hp Hd.
  rewrite tget_tabulate by (repeat constructor; lia).
  by rewrite bidx_same3.
Qed.

Lemma expand_read (t e : tensor A) N P D :
  expand t [N; P; D] = Ok e → shape t = [1; P; D] →
  shape e = [N; P; D] ∧
  ∀ n p d, n < N → p < P → d < D → tget e [n; p; d] = tget t [0; p; d].
Proof.
  unfold expand. intros He Ht. rewrite Ht in He.
  destruct (expandable_rev _ _); [|done]. injection He as <-.
  split; [done|]. intros n p d Hn Hp Hd.
  rewrite tget_tabulate by (repeat constructor; lia).
  by rewrite bidx_1PD_3.
Qed.

Lemma expand_batch_ok (t : tensor A) N P D :
  shape t = [1; P; D] → ∃ e, expand t [N; P; D] = Ok e.
Proof.
  intros Ht. unfold expand. rewrite Ht. cbv [reverse rev_append]. simpl.
  rewrite !Nat.eqb_refl. simpl. rewrite orb_true_r. eauto.
Qed.
End reads.

(** ** The loop of [enc_points] *)

Section loop.
Context {T : Type} `{Scalar T}.
Variable ch_dist : tensor T → tensor T → option (tensor nat).

Lemma enc_points_step_Ok bps x Nb N deltas idxs k deltas' idxs' :
  enc_points_step ch_dist bps x Nb N (deltas, idxs) k = Ok (deltas', idxs') →
  ∃ Y X b2x_idx picked diff,
    (if Nb =? N then slice0 bps k (k + 1) else Ok bps) = Ok Y ∧
    slice0 x k (k + 1) = Ok X ∧
    ch_dist Y X = Some b2x_idx ∧
    index1 X b2x_idx = Ok picked ∧
    tzip sub picked Y = Ok diff ∧
    setitem0 deltas k diff = Ok deltas' ∧
    setitem0 idxs k b2x_idx = Ok idxs'.
Proof.
  unfold enc_points_step. intros Hstep. inv_result. subst.
  eauto 12.
Qed.

Lemma slice0_one (x : tensor T) N P_x D k X :
  shape x = [N; P_x; D] → k < N → slice0 x k (k + 1) = Ok X →
  X = tabulate [1; P_x; D]
        (λ o, match o with i :: r => tget x ((k + i) :: r) | [] => inhabitant end).
Proof.
  intros Hx Hk. unfold slice0. rewrite Hx. intros [= <-].
  replace ((k + 1) `min` N - k `min` N) with 1 by lia.
  by replace (k `min` N) with k by lia.
Qed.

Lemma enc_points_step_filled bps x Nb N P D P_x k st st' :
  oracle_tensor ch_dist → shape x = [N; P_x; D] → k < N →
  filled N P D P_x k st →
  enc_points_step ch_dist bps x Nb N st k = Ok st' →
  filled N P D P_x (S k) st'.
Proof.
  intros Hwf Hx Hk (Hd & Hi & Hlt) Hstep.
  destruct st as [deltas idxs], st' as [deltas' idxs']. simpl in *.
  apply enc_points_step_Ok in Hstep
    as (Y & X & idx & picked & diff & _ & HX & Hor & Hpick & _ & Hsd & Hsi).
  apply (slice0_one _ N P_x D) in HX as ->; [|done..].
  eapply index1_inv in Hpick as [Hlt' _]; [|done].
  apply setitem0_Ok in Hsd as (? & ? & _ & _ & _ & ->).
  apply setitem0_Ok in Hsi as (n0 & rest & Hs & _ & Hasg & ->).
  rewrite Hi in Hs. injection Hs as <- <-.
  split_and!; simpl; try done.
  intros n p Hn Hp. rewrite tget_tabulate by (rewrite Hi; apply in_range2; lia).
  destruct (n =? k) eqn:Enk; [|apply Hlt; [apply Nat.eqb_neq in Enk; lia|done]].
  rewrite Forall_forall in Hlt'. apply Hlt'.
  apply tget_elem_of; [by eapply Hwf|].
  eapply bidx_in_range; [done|]. by repeat constructor.
Qed.

Lemma enc_points_loop_Ok self x cb x' N P D deltas idxs :
  enc_points_loop ch_dist self x cb = Ok (x', (N, P, D), (deltas, idxs)) →
  ∃ Nb Db P_x,
    x' = (if 2 <? ndim x then x else unsqueeze0 x) ∧
    shape (if cb is Some b then b else bps self) = [Nb; P; Db] ∧
    shape x' = [N; P_x; D] ∧
    for_each (enc_points_step ch_dist (if cb is Some b then b else bps self) x' Nb N)
      (full [N; P; D] zero, full [N; P] 0) (seq 0 N) = Ok (deltas, idxs).
Proof.
  unfold enc_points_loop. intros Hl.
  apply bind_Ok in Hl as ([[Nb P'] Db] & Hb & Hl).
  apply bind_Ok in Hl as ([[N' Px] D'] & Hx & Hl).
  apply bind_Ok in Hl as ([d i] & Hrun & Hl).
  injection Hl as <- <- <- <- <- <-.
  apply unpack3_Ok in Hb, Hx. eauto 10.
Qed.

Lemma enc_points_loop_filled self x cb x' N P D deltas idxs :
  oracle_tensor ch_dist →
  enc_points_loop ch_dist self x cb = Ok (x', (N, P, D), (deltas, idxs)) →
  ∃ P_x, shape x' = [N; P_x; D] ∧ filled N P D P_x N (deltas, idxs).
Proof.
  intros Hwf (Nb & Db & P_x & _ & _ & Hx & Hrun)%enc_points_loop_Ok.
  exists P_x. split; [done|].
  eapply (for_each_seq_inv _ (filled N P D P_x)); [| |done].
  - intros k s s' Hk Hs Hstep. by eapply enc_points_step_filled.
  - split_and!; [done..|]. intros; lia.
Qed.
End loop.

(** ** The feature stage of [enc_points] *)

Lemma Forall_data_tabulate {A} (P : A → Prop) s (f : list nat → A) :
  (∀ o, in_range s o → P (f o)) → Forall P (data (tabulate s f)).
Proof.
  intros Hf. unfold tabulate. simpl. apply Forall_fmap, Forall_forall.
  intros o Ho. apply Hf. by apply in_range_indices.
Qed.

Lemma in_range3_inv a b c o :
  in_range [a; b; c] o → ∃ i j k, o = [i; j; k] ∧ i < a ∧ j < b ∧ k < c.
Proof.
  intros Hr. unfold in_range in Hr.
  repeat match goal with H : Forall2 _ _ (_ :: _) |- _ =>
    apply Forall2_cons_inv_r in H as (? & ? & ? & H & ->) end.
  apply Forall2_nil_inv_r in Hr as ->. eauto 10.
Qed.

Lemma size_insert_pos {V} (m : gmap string V) k v : (size (<[k:=v]> m) <? 1) = false.
Proof.
  apply Nat.ltb_ge. destruct (size (<[k:=v]> m)) eqn:E; [|lia].
  apply map_size_empty_iff in E. by apply insert_non_empty in E.
Qed.

Lemma is_Some_insert {V} (m : gmap string V) k0 v k :
  is_Some (<[k0:=v]> m !! k) ↔ k = k0 ∨ is_Some (m !! k).
Proof. rewrite lookup_insert_is_Some'. split; intros [?|?]; auto. Qed.

Lemma is_Some_empty {V} (k : string) : is_Some ((∅ : gmap string V) !! k) ↔ False.
Proof. rewrite lookup_empty. split; [by intros [? ?]|done]. Qed.

Section stage.
Context {T : Type} `{Scalar T}.

Lemma expand_ids (idxs : tensor nat) N P F P_x :
  shape idxs = [N; P] →
  (∀ n p, n < N → p < P → tget idxs [n; p] < P_x) →
  ∃ v e, view idxs [N; P; 1] = Ok v ∧ expand v [N; P; F] = Ok e ∧
    shape e = [N; P; F] ∧ Forall (λ i, i < P_x) (data e) ∧
    ∀ n p f, n < N → p < P → f < F → tget e [n; p; f] = tget idxs [n; p].
Proof.
  intros Hs Hlt. unfold view, expand. rewrite Hs. simpl.
  rewrite Nat.eqb_refl. eexists _, _. split; [done|]. simpl.
  rewrite !Nat.eqb_refl, orb_true_r. simpl. split; [done|].
  assert (∀ n p f, n < N → p < P → f < F →
    tget (Tensor [N; P; 1] (data idxs)) (bidx [N; P; 1] [n; p; f])
    = tget idxs [n; p]) as Hget.
  { intros n p f Hn Hp Hf. unfold bidx. simpl.
    rewrite !clamp_lt by done. unfold tget. simpl. rewrite Hs. simpl.
    do 2 f_equal; lia. }
  split_and!; [done| |].
  - apply Forall_data_tabulate. intros o (n & p & f & -> & ? & ? & ?)%in_range3_inv.
    rewrite Hget by done. by apply Hlt.
  - intros n p f Hn Hp Hf. rewrite tget_tabulate by by apply in_range3.
    by apply Hget.
Qed.

Lemma gather1_intro (x : tensor T) (e : tensor nat) N P_x D P F :
  shape x = [N; P_x; D] → shape e = [N; P; F] → F ≤ D →
  Forall (λ i, i < P_x) (data e) →
  gather1 x e = Ok (tabulate [N; P; F] (λ o, tget x (<[1 := tget e o]> o))).
Proof.
  intros Hx He HF Hlt. unfold gather1. rewrite Hx, He.
  destruct (numel [N; P; F] =? 0); [done|]. simpl.
  rewrite Nat.leb_refl. simpl.
  replace (F <=? D) with true by (symmetry; by apply Nat.leb_le).
  simpl. by rewrite Forall_ltb_forallb.
Qed.

Lemma dists_stage (deltas : tensor T) N P D :
  shape deltas = [N; P; D] →
  ∃ s, tsum add zero (tmap (λ a, mul a a) deltas) 2 = Ok s.
Proof. intros Hs. unfold tsum, tmap. simpl. rewrite Hs. simpl. eauto. Qed.

Lemma enc_points_features_filled (x : tensor T) N P D P_x deltas idxs ft xf :
  shape x = [N; P_x; D] → filled N P D P_x N (deltas, idxs) →
  "features" ∈ ft →
  match gather_features x idxs N P xf with
  | Ok f => ∃ b, enc_points_features x N P D deltas idxs ft xf = Ok b
                 ∧ b !! "features" = Some (VFloat f)
  | Err _ => enc_points_features x N P D deltas idxs ft xf
             = Err (ValueError msg_no_x_features)
  end.
Proof.
  intros Hx (Hd & Hi & Hlt) Hft. simpl in *. unfold enc_points_features.
  destruct (dists_stage deltas N P D Hd) as [s ->].
  destruct (expand_ids idxs N P D P_x Hi Hlt) as (v & e & -> & Hex & He & Hall & _).
  cbn [mbind result_bind]. rewrite Hex. cbn [mbind result_bind].
  rewrite (gather1_intro x e N P_x D P D) by done.
  rewrite (bool_decide_eq_true_2 ("features" ∈ ft)) by done.
  destruct (gather_features x idxs N P xf) as [f|err];
    repeat case_bool_decide; simpl; try done;
    rewrite size_insert_pos; eexists; (split; [done|]);
    by rewrite lookup_insert_ne, lookup_insert_eq.
Qed.

Lemma enc_points_features_Ok (x : tensor T) N P D deltas idxs ft xf b :
  enc_points_features x N P D deltas idxs ft xf = Ok b →
  ∃ dists closest features closest_ids,
    b = bundle_of ft dists deltas closest features closest_ids idxs.
Proof.
  unfold enc_points_features. intros Hb.
  apply bind_Ok in Hb as (m1 & H1 & Hb).
  apply bind_Ok in Hb as (m2 & H2 & Hb).
  apply bind_Ok in Hb as (m3 & H3 & Hb).
  apply bind_Ok in Hb as (m4 & H4 & Hb).
  destruct (size m4 <? 1); [done|].
  assert (b = <["ids" := VLong idxs]> m4) as -> by congruence. clear Hb.
  assert (∃ dists, m1 = if bool_decide ("dists" ∈ ft)
                        then <["dists" := VFloat dists]> ∅ else ∅) as [dists E1].
  { destruct (bool_decide ("dists" ∈ ft)); [|injection H1 as <-; by exists deltas].
    apply bind_Ok in H1 as (s & _ & [= <-]). eauto. }
  assert (m2 = if bool_decide ("deltas" ∈ ft)
               then <["deltas" := VFloat deltas]> m1 else m1) as E2.
  { destruct (bool_decide ("deltas" ∈ ft)); by injection H2 as <-. }
  assert (∃ c e, m3 = if bool_decide ("closest" ∈ ft)
                      then <["closest_ids" := VLong e]> (<["closest" := VFloat c]> m2)
                      else m2) as (c & e & E3).
  { destruct (bool_decide ("closest" ∈ ft)); [|injection H3 as <-; by exists deltas, idxs].
    apply bind_Ok in H3 as (v & _ & H3). apply bind_Ok in H3 as (e & _ & H3).
    apply bind_Ok in H3 as (c & _ & [= <-]). eauto. }
  assert (∃ f, m4 = if bool_decide ("features" ∈ ft)
                    then <["features" := VFloat f]> m3 else m3) as (f & E4).
  { destruct (bool_decide ("features" ∈ ft)); [|injection H4 as <-; by exists deltas].
    destruct (gather_features _ _ _ _ _) as [f|]; [|done].
    injection H4 as <-. eauto. }
  exists dists, c, f, e. clear H1 H2 H3 H4. by subst m4 m3 m2 m1.
Qed.

Lemma bundle_of_keys ft (dists deltas closest features : tensor T) closest_ids idxs k :
  is_Some (bundle_of ft dists deltas closest features closest_ids idxs !! k) ↔
    k = "ids" ∨ k = "dists" ∧ "dists" ∈ ft ∨ k = "deltas" ∧ "deltas" ∈ ft
    ∨ k = "closest" ∧ "closest" ∈ ft ∨ k = "closest_ids" ∧ "closest" ∈ ft
    ∨ k = "features" ∧ "features" ∈ ft.
Proof.
  unfold bundle_of.
  repeat case_bool_decide;
    rewrite ?is_Some_insert, ?is_Some_empty; tauto.
Qed.

Lemma bundle_of_ids ft (dists deltas closest features : tensor T) closest_ids idxs :
  bundle_of ft dists deltas closest features closest_ids idxs !! "ids"
  = Some (VLong idxs).
Proof. unfold bundle_of. by rewrite lookup_insert_eq. Qed.

Lemma bundle_of_deltas ft (dists deltas closest features : tensor T) closest_ids idxs :
  "deltas" ∈ ft →
  bundle_of ft dists deltas closest features closest_ids idxs !! "deltas"
  = Some (VFloat deltas).
Proof.
  intros Hd. unfold bundle_of. rewrite (bool_decide_eq_true_2 _ Hd).
  repeat case_bool_decide;
    rewrite ?lookup_insert_ne by done; by rewrite lookup_insert_eq.
Qed.
End stage.

(** ** The loop with the object's own basis, and [decode] *)

Section shared_basis.
Context {T : Type} `{Scalar T}.
Variable ch_dist : tensor T → tensor T → option (tensor nat).

Lemma shared_basis_Y (bps : tensor T) N P D k Y :
  shape bps = [1; P; D] → k < N →
  (if 1 =? N then slice0 bps k (k + 1) else Ok bps) = Ok Y →
  shape Y = [1; P; D] ∧
  ∀ p d, p < P → d < D → tget Y [0; p; d] = tget bps [0; p; d].
Proof.
  intros Hb Hk HY. destruct (1 =? N) eqn:EN.
  - apply Nat.eqb_eq in EN. assert (k = 0) as -> by lia.
    unfold slice0 in HY. rewrite Hb in HY. injection HY as <-. simpl.
    split; [done|]. intros p d Hp Hd.
    by rewrite tget_tabulate by (apply in_range3; lia).
  - injection HY as <-. done.
Qed.

Lemma enc_points_step_matched bps x N P D P_x k st st' :
  oracle_tensor ch_dist → oracle_shape ch_dist →
  shape bps = [1; P; D] → shape x = [N; P_x; D] → k < N →
  matched bps x N P D P_x k st →
  enc_points_step ch_dist bps x 1 N st k = Ok st' →
  matched bps x N P D P_x (S k) st'.
Proof.
  intros Hwf Hsh Hb Hx Hk [Hfill Hval] Hstep.
  split; [by eapply enc_points_step_filled|].
  destruct Hfill as (Hd & Hi & Hlt).
  destruct st as [deltas idxs], st' as [deltas' idxs']. cbn [fst snd] in *.
  apply enc_points_step_Ok in Hstep
    as (Y & X & idx & picked & diff & HY & HX & Hor & Hpick & Hdiff & Hsd & Hsi).
  apply (shared_basis_Y bps N P D) in HY as [HYs HYv]; [|done..].
  apply (slice0_one _ N P_x D) in HX; [|done..].
  pose proof (Hsh _ _ _ _ _ _ HYs Hor) as Hidx.
  pose proof (Hwf _ _ _ Hor) as Hidxwf.
  assert (Forall (λ i, i < P_x) (data idx)) as Hlt'.
  { eapply index1_inv in Hpick as [? _]; [done|]. by rewrite HX. }
  apply (index1_read _ _ _ P_x D P) in Hpick as [Hps Hpv]; [|by rewrite HX|done].
  apply (tzip_read _ _ _ _ P D) in Hdiff as [Hfs Hfv]; [|done..].
  intros n p d Hn Hp Hdd.
  eapply tget_setitem0 in Hsd as [_ ->]; [|done|lia|by repeat constructor].
  eapply tget_setitem0 in Hsi as [_ ->]; [|done|lia|by repeat constructor].
  destruct (n =? k) eqn:Enk; [|apply Nat.eqb_neq in Enk; apply Hval; [lia|done..]].
  apply Nat.eqb_eq in Enk as ->.
  rewrite Hfs, Hidx, bidx_11PD_2, bidx_1P, Hfv, Hpv, HYv by done.
  assert (tget idx [0; p] < P_x) as Hip.
  { rewrite Forall_forall in Hlt'. apply Hlt', tget_elem_of; [done|].
    rewrite Hidx. apply in_range2; lia. }
  rewrite HX, tget_tabulate by (apply in_range3; lia).
  by rewrite Nat.add_0_r.
Qed.

Lemma enc_points_loop_matched self x x' N P D deltas idxs :
  oracle_tensor ch_dist → oracle_shape ch_dist →
  shape (bps self) = [1; P; D] →
  enc_points_loop ch_dist self x None = Ok (x', (N, P, D), (deltas, idxs)) →
  ∃ P_x, shape x' = [N; P_x; D] ∧ matched (bps self) x' N P D P_x N (deltas, idxs).
Proof.
  intros Hwf Hsh Hb (Nb & Db & P_x & _ & Hb' & Hx & Hrun)%enc_points_loop_Ok.
  rewrite Hb in Hb'. injection Hb' as <- <-.
  exists P_x. split; [done|].
  eapply (for_each_seq_inv _ (matched (bps self) x' N P D P_x)); [| |done].
  - intros k s s' Hk Hs Hstep. by eapply enc_points_step_matched.
  - split; [split_and!; [done..|]|]; intros; lia.
Qed.

Lemma decode_shared self (deltas : tensor T) N P D :
  shape (bps self) = [1; P; D] → shape deltas = [N; P; D] →
  ∃ out, decode self deltas None = Ok out ∧ shape out = [N; P; D] ∧
    ∀ n p d, n < N → p < P → d < D →
      tget out [n; p; d] = add (tget (bps self) [0; p; d]) (tget deltas [n; p; d]).
Proof.
  intros Hb Hd. destruct (expand_batch_ok (bps self) N P D Hb) as [e He].
  pose proof He as [Hes Hev]%expand_read; [|done].
  assert (∃ out, tzip add e deltas = Ok out) as [out Hout].
  { unfold tzip, broadcast_shapes. rewrite Hes, Hd.
    cbv [reverse rev_append]. simpl. rewrite !bdim_refl. simpl. eauto. }
  exists out.
  assert (decode self deltas None = Ok out) as ->.
  { unfold decode, ndim. rewrite Hd, Hb. simpl. rewrite Hd, Hb. simpl.
    by rewrite He. }
  apply (tzip_read_same _ _ _ _ N P D) in Hout as [Hos Hov]; [|done..].
  split_and!; [done..|]. intros n p d Hn Hp Hdd.
  by rewrite Hov, Hev.
Qed.

End shared_basis.

(** ** Failure of the loop on a basis batch that fits neither rule *)

Lemma bdim_other x y d : bdim x y = Some d → y ≠ 1 → d = y.
Proof.
  unfold bdim. intros Hd Hy.
  destruct (x =? y) eqn:E1; [apply Nat.eqb_eq in E1; congruence|].
  destruct (x =? 1); [congruence|].
  destruct (y =? 1) eqn:E3; [apply Nat.eqb_eq in E3; done|done].
Qed.

Lemma bshape_rev_third a x0 x1 x2 r :
  bshape_rev a [x0; x1; x2] = Some r → x2 ≠ 1 →
  ∃ r0 r1 rest, r = r0 :: r1 :: x2 :: rest.
Proof.
  intros Hr Hx. destruct a as [|a0 [|a1 [|a2 a']]]; simpl in Hr.
  - injection Hr as <-. eauto.
  - destruct (bdim a0 x0); simpl in Hr; [|done]. injection Hr as <-. eauto.
  - destruct (bdim a0 x0); simpl in Hr; [|done].
    destruct (bdim a1 x1); simpl in Hr; [|done]. injection Hr as <-. eauto.
  - destruct (bdim a0 x0); simpl in Hr; [|done].
    destruct (bdim a1 x1); simpl in Hr; [|done].
    destruct (bdim a2 x2) as [d|] eqn:Ed; simpl in Hr; [|done].
    apply bdim_other in Ed as ->; [|done].
    destruct a'; simpl in Hr; injection Hr as <-; eauto.
Qed.

Lemma reshape_infer_Err {A} (t : tensor A) pre post e :
  reshape_infer t pre post = Err e → e = RuntimeError.
Proof.
  unfold reshape_infer. destruct (_ =? 0); [congruence|].
  destruct (_ =? 0); [done|congruence].
Qed.

Lemma setitem0_unassignable {A} `{Inhabited A} (dst : tensor A) i src n rest :
  shape dst = n :: rest → i < n →
  assignable_rev (reverse (shape src)) (reverse rest) = false →
  setitem0 dst i src = Err RuntimeError.
Proof.
  intros Hs Hi Ha. unfold setitem0. rewrite Hs, Ha.
  by replace (i <? n) with true by (symmetry; by apply Nat.ltb_lt).
Qed.

Section mismatch.
Context {T : Type} `{Scalar T}.
Variable ch_dist : tensor T → tensor T → option (tensor nat).

Lemma enc_points_step_mismatch (bps x : tensor T) Nb N P Db P_x D st :
  shape bps = [Nb; P; Db] → shape x = [N; P_x; D] →
  shape st.1 = [N; P; D] → N ≠ 0 → Nb ≠ N → Nb ≠ 1 →
  ∃ e, enc_points_step ch_dist bps x Nb N st 0 = Err e
       ∧ configuration_error e = false.
Proof.
  intros Hb Hx Hd HN HNb H1. destruct st as [deltas idxs]. simpl in Hd.
  unfold enc_points_step.
  replace (Nb =? N) with false by (symmetry; by apply Nat.eqb_neq).
  cbn [mbind result_bind].
  unfold slice0 at 1. rewrite Hx. cbn [mbind result_bind].
  destruct (ch_dist _ _) as [idx|]; cbn [raise_none mbind result_bind]; [|eauto].
  destruct (index1 _ idx) as [picked|e] eqn:Hpick; cbn [mbind result_bind].
  2:{ exists e. split; [done|]. unfold index1 in Hpick. simpl in Hpick.
      destruct (forallb _ _); by simplify_eq. }
  destruct (tzip sub picked bps) as [diff|e] eqn:Hdiff; cbn [mbind result_bind].
  2:{ exists e. split; [done|]. unfold tzip in Hdiff.
      destruct (broadcast_shapes _ _); by simplify_eq. }
  exists RuntimeError. split; [|done].
  unfold tzip, broadcast_shapes in Hdiff. rewrite Hb in Hdiff.
  change (reverse [Nb; P; Db]) with [Db; P; Nb] in Hdiff.
  destruct (bshape_rev _ _) as [r|] eqn:Hr; [|done]. simpl in Hdiff.
  injection Hdiff as <-.
  apply bshape_rev_third in Hr as (r0 & r1 & rest & ->); [|done].
  rewrite (setitem0_unassignable deltas 0 _ N [P; D]); [done|done|lia|].
  simpl. rewrite reverse_involutive.
  change (reverse [P; D]) with [D; P]. simpl.
  replace (Nb =? 1) with false by (symmetry; by apply Nat.eqb_neq).
  by rewrite !andb_false_r.
Qed.

End mismatch.

(** ** The grid of [grid_cube] *)

Lemma reshape_infer_Ok {A} (t r : tensor A) d :
  reshape_infer t [1] [d] = Ok r →
  d ≠ 0 ∧ numel (shape t) mod d = 0
  ∧ r = Tensor [1; numel (shape t) / d; d] (data t).
Proof.
  unfold reshape_infer. simpl. replace (d * 1 + 0) with d by lia.
  destruct (d =? 0) eqn:Ed; [done|]. apply Nat.eqb_neq in Ed.
  destruct (_ mod d =? 0) eqn:Em; [|done]. apply Nat.eqb_eq in Em.
  by intros [= <-].
Qed.

Lemma reshape_infer_fail {A} (t : tensor A) d :
  d = 0 ∨ numel (shape t) mod d ≠ 0 → reshape_infer t [1] [d] = Err RuntimeError.
Proof.
  unfold reshape_infer. simpl. replace (d * 1 + 0) with d by lia.
  intros [->|Hm]; [done|]. destruct (d =? 0); [done|].
  by replace (_ mod d =? 0) with false by (symmetry; by apply Nat.eqb_neq).
Qed.

Section grid.
Context {T : Type} `{Scalar T}.
Variable sample_sphere_uniform : nat → nat → T → Z → tensor T.
Variable sample_sphere_nonuniform : nat → nat → T → Z → tensor T.
Variable sample_grid_cube : Z → T → T → tensor T.
Variable sample_grid_sphere : nat → nat → T → bool → tensor T.
Variable np_power : nat → nat → Q.

(** What the ['grid_cube'] branch builds: the sampler's array, regrouped
    [n_dims] entries at a time. *)
Lemma init_grid_cube n radius d seed rnd self :
  init sample_sphere_uniform sample_sphere_nonuniform sample_grid_cube
    sample_grid_sphere np_power "grid_cube" n radius d seed rnd None = Ok self →
  let t := sample_grid_cube (grid_size np_power n d) (opp radius) radius in
  d ≠ 0 ∧ numel (shape t) mod d = 0
  ∧ bps self = Tensor [1; numel (shape t) / d; d] (data t).
Proof.
  unfold init. simpl. destruct (d =? 0) eqn:Ed; [done|].
  cbn [mbind result_bind]. intros (b & Hb & [= <-])%bind_Ok.
  by apply reshape_infer_Ok in Hb as (? & ? & ->).
Qed.
End grid.

(** ** The stand-in oracle keeps the oracle contract *)

Lemma nearest_tensor : oracle_tensor Ref.nearest.
Proof.
  intros Y X t. unfold Ref.nearest.
  destruct (shape Y) as [|? [|? [|? [|? ?]]]]; try done.
  destruct (shape X) as [|? [|? [|? [|? ?]]]]; try done.
  intros [= <-]. apply wf_tabulate.
Qed.

Lemma nearest_shape : oracle_shape Ref.nearest.
Proof.
  intros Y X t B Py D HY. unfold Ref.nearest. rewrite HY.
  destruct (shape X) as [|? [|? [|? [|? ?]]]]; try done.
  by intros [= <-].
Qed.

Ltac elem_solve :=
  first [ by apply list_elem_of_here | apply list_elem_of_further; elem_solve ].
Ltac not_elem_solve :=
  let Hin := fresh "Hin" in
  intros Hin;
  repeat (apply elem_of_cons in Hin as [Hin|Hin]; [discriminate Hin|]);
  by apply not_elem_of_nil in Hin.


(** * The claims *)

Section claims.
Context {T : Type} `{Scalar T}.
Variable ch_dist : tensor T → tensor T → option (tensor nat).
Variable mesh : Type.
Variable point2surface : list mesh → tensor T → option (tensor T).
Variable sample_sphere_uniform : nat → nat → T → Z → tensor T.
Variable sample_sphere_nonuniform : nat → nat → T → Z → tensor T.
Variable sample_grid_cube : Z → T → T → tensor T.
Variable sample_grid_sphere : nat → nat → T → bool → tensor T.
Variable np_power : nat → nat → Q.

(** The floating-point side of the round trip: [approx u v] reads "[u]
    equals [v] within tolerance", and all that is asked of it is that
    subtracting a number and adding it back stays within tolerance.  In an
    exact arithmetic [approx] is equality. *)
Variable approx : T → T → Prop.
Hypothesis add_sub : ∀ a b, approx (add b (sub a b)) a.

(** C1.  Round trip.  Let the object hold a basis of shape [[1, P, D]]
    (no custom basis), let [x] have shape [[N, P_x, D]], and let the oracle
    return one index tensor of shape [[1, P]] per call.  If [enc_points],
    asked for ['deltas'], returns a bundle, then the bundle holds [deltas]
    and [ids], [decode] of the deltas succeeds with shape [[N, P, D]], and
    for every batch item [n], basis point [p] and coordinate [d] the
    decoded entry equals, within tolerance, the entry of the matched input
    point [x[n, ids[n, p], d]]. *)
Theorem encode_decode_round_trip self x ft xf N P_x P D b :
  oracle_tensor ch_dist → oracle_shape ch_dist →
  shape (bps self) = [1; P; D] → shape x = [N; P_x; D] →
  "deltas" ∈ ft →
  enc_points ch_dist self x ft xf None = Ok b →
  ∃ deltas ids out,
    b !! "deltas" = Some (VFloat deltas) ∧ b !! "ids" = Some (VLong ids) ∧
    decode self deltas None = Ok out ∧ shape out = [N; P; D] ∧
    ∀ n p d, n < N → p < P → d < D →
      approx (tget out [n; p; d]) (tget x [n; tget ids [n; p]; d]).
Proof using add_sub.
  intros Hwf Hsh Hb Hx Hft Henc. unfold enc_points in Henc.
  apply bind_Ok in Henc as ([[x' [[N' P'] D']] [deltas idxs]] & Hloop & Henc).
  pose proof Hloop as (Nb & Db & Px' & Hx' & Hb' & Hxs & _)%enc_points_loop_Ok.
  unfold ndim in Hx'. rewrite Hx in Hx'. simpl in Hx'. subst x'.
  rewrite Hx in Hxs. injection Hxs as <- <- <-.
  simpl in Hb'. rewrite Hb in Hb'. injection Hb' as <- <- <-.
  apply enc_points_loop_matched in Hloop as (Px' & Hxs & [(Hd & Hi & _) Hval]);
    [|done..].
  cbn [fst snd] in *.
  apply enc_points_features_Ok in Henc as (dv & c & f & e & ->).
  destruct (decode_shared self deltas N P D Hb Hd) as (out & Hout & Hos & Hov).
  exists deltas, idxs, out. rewrite bundle_of_deltas, bundle_of_ids by done.
  split_and!; [done..|].
  intros n p d Hn Hp Hdd. rewrite Hov, Hval by done. apply add_sub.
Qed.

(** C3, as amended.  [enc_points] never looks at the batch size of the
    basis beyond the test [Nb == N].  With a basis batch that is neither
    [N] nor 1: for an empty batch ([N = 0]) the loop is not entered and
    ends normally; for [N >= 1] the call fails, in the first turn of the
    loop, with an exception that is not a configuration error (the oracle's
    failure, an index error, or torch's shape error when the difference is
    written into [deltas[fid]]). *)
Theorem basis_batch_unchecked (self : bps_torch T) x ft xf cb Nb N P Db P_x D :
  shape (if cb is Some b then b else bps self) = [Nb; P; Db] →
  shape x = [N; P_x; D] → Nb ≠ N → Nb ≠ 1 →
  (N = 0 →
     enc_points_loop ch_dist self x cb
     = Ok (x, (0, P, D), (full [0; P; D] zero, full [0; P] 0)))
  ∧ (N ≠ 0 →
     ∃ e, enc_points ch_dist self x ft xf cb = Err e
          ∧ configuration_error e = false).
Proof.
  intros Hb Hx HNb H1. split.
  - intros ->. unfold enc_points_loop, ndim. rewrite Hx. simpl.
    rewrite Hb, Hx. done.
  - intros HN.
    assert (∃ e, enc_points_loop ch_dist self x cb = Err e
                 ∧ configuration_error e = false) as (e & He & Hc).
    { unfold enc_points_loop, ndim. rewrite Hx. simpl. rewrite Hb, Hx. simpl.
      destruct N as [|N']; [done|]. cbn [seq for_each].
      edestruct (enc_points_step_mismatch ch_dist
                   (if cb is Some b then b else bps self) x Nb (S N') P Db P_x D
                   (full [S N'; P; D] zero, full [S N'; P] 0))
        as (e & He & Hc); [done..|].
      rewrite He. eauto. }
    exists e. split; [|done]. unfold enc_points. by rewrite He.
Qed.

(** C4, as amended.  A bundle returned by [enc_points] holds ['ids'];
    ['dists'], ['deltas'], ['closest'] and ['features'] are present exactly
    when requested; ['closest_ids'] is present exactly when ['closest'] was
    requested; no other key is present.  A bundle returned by [enc_mesh]
    holds ['dists'] and nothing else, whatever was requested. *)
Theorem bundle_keys (self : bps_torch T) x ms ft xf cb :
  (∀ b, enc_points ch_dist self x ft xf cb = Ok b →
     ∀ k, is_Some (b !! k) ↔
       k = "ids" ∨ k = "dists" ∧ "dists" ∈ ft ∨ k = "deltas" ∧ "deltas" ∈ ft
       ∨ k = "closest" ∧ "closest" ∈ ft ∨ k = "closest_ids" ∧ "closest" ∈ ft
       ∨ k = "features" ∧ "features" ∈ ft)
  ∧ (∀ b, (enc_mesh mesh point2surface self ms ft cb).2 = Ok b →
     ∀ k, is_Some (b !! k) ↔ k = "dists").
Proof.
  split.
  - intros b Hb k. unfold enc_points in Hb.
    apply bind_Ok in Hb as ([[x' [[N P] D]] [deltas idxs]] & _ & Hb).
    apply enc_points_features_Ok in Hb as (d & c & f & e & ->).
    apply bundle_of_keys.
  - intros b Hb k. unfold enc_mesh in Hb.
    destruct (_ ≫= _) as [b2o|]; [|done]. simpl in Hb.
    apply bind_Ok in Hb as (d & _ & [= <-]).
    split.
    + intros [v Hv]. by apply lookup_singleton_Some in Hv as [<- _].
    + intros ->. rewrite lookup_singleton_eq. eauto.
Qed.

(** C5.  Let the loop of [enc_points] have completed (no failure of the
    oracle or of the indexing) and let ['features'] be requested.  Without
    [x_features] the call raises the [ValueError] "No x_features parameter
    is provided!", which is a configuration error and not the oracle's
    failure; any failure inside the gather surfaces as that same error; and
    when the gather succeeds the call returns its result under
    ['features']. *)
Theorem features_need_x_features self x ft xf cb x' N P D deltas idxs :
  oracle_tensor ch_dist → "features" ∈ ft →
  enc_points_loop ch_dist self x cb = Ok (x', (N, P, D), (deltas, idxs)) →
  (xf = None →
     enc_points ch_dist self x ft xf cb = Err (ValueError msg_no_x_features))
  ∧ (∀ e, gather_features x' idxs N P xf = Err e →
     enc_points ch_dist self x ft xf cb = Err (ValueError msg_no_x_features))
  ∧ (∀ f, gather_features x' idxs N P xf = Ok f →
     ∃ b, enc_points ch_dist self x ft xf cb = Ok b
          ∧ b !! "features" = Some (VFloat f)).
Proof.
  intros Hwf Hft Hloop.
  destruct (enc_points_loop_filled _ _ _ _ _ _ _ _ _ _ Hwf Hloop) as (P_x & Hx & Hfill).
  pose proof (enc_points_features_filled x' N P D P_x deltas idxs ft xf Hx Hfill Hft) as Hst.
  unfold enc_points. rewrite Hloop. simpl.
  split_and!.
  - intros ->. by simpl in Hst.
  - intros e He. by rewrite He in Hst.
  - intros f Hf. by rewrite Hf in Hst.
Qed.

(** C6, as amended.  Whatever [feature_type] is, [enc_mesh] returns what it
    returns for [['dists']]: the request is never a reason to fail.  A
    returned bundle holds ['dists'] and nothing else, and the warning is
    printed exactly when ['dists'] is not among the requested names. *)
Theorem mesh_only_dists (self : bps_torch T) ms ft cb :
  (enc_mesh mesh point2surface self ms ft cb).2
  = (enc_mesh mesh point2surface self ms ["dists"] cb).2
  ∧ (∀ b, (enc_mesh mesh point2surface self ms ft cb).2 = Ok b →
       (∀ k, is_Some (b !! k) ↔ k = "dists")
       ∧ (enc_mesh mesh point2surface self ms ft cb).1
         = if bool_decide ("dists" ∈ ft) then [] else [msg_only_dists]).
Proof.
  unfold enc_mesh. destruct (_ ≫= _) as [b2o|e]; simpl; [|done].
  split; [done|]. intros b Hb.
  apply bind_Ok in Hb as (d & _ & [= <-]). split; [|done].
  intros k. split.
  - intros [v Hv]. by apply lookup_singleton_Some in Hv as [<- _].
  - intros ->. rewrite lookup_singleton_eq. eauto.
Qed.

(** C7, as amended.  The construction raises a configuration error exactly
    when no custom basis is given and [bps_type] is none of the four
    sampler names, that is, when it is unrecognized or is ['custom']
    itself.  A custom basis takes priority over any [bps_type]: the object
    is built from it alone. *)
Theorem init_configuration_error ty n r d seed rnd cb b :
  ((∃ msg, init sample_sphere_uniform sample_sphere_nonuniform sample_grid_cube
             sample_grid_sphere np_power ty n r d seed rnd cb = Err (ValueError msg))
   ↔ cb = None
     ∧ ty ∉ ["random_uniform"; "random_nonuniform"; "grid_cube"; "grid_sphere"])
  ∧ init sample_sphere_uniform sample_sphere_nonuniform sample_grid_cube
      sample_grid_sphere np_power ty n r d seed rnd (Some b)
    = (b' ← reshape_infer b [1] [d]; Ok (BpsTorch b')).
Proof.
  split; [|done]. unfold init. destruct cb as [c|].
  - simpl. split; [|by intros [? _]]. intros [msg Hm].
    destruct (reshape_infer c [1] [d]) eqn:Hr; simpl in Hm; [done|].
    apply reshape_infer_Err in Hr. congruence.
  - assert (∀ t : tensor T, ¬ ∃ msg,
              (b' ← reshape_infer t [1] [d]; Ok (BpsTorch b')) = Err (ValueError msg))
      as Hre.
    { intros t [msg Hm]. destruct (reshape_infer t [1] [d]) eqn:Hr; simpl in Hm; [done|].
      apply reshape_infer_Err in Hr. congruence. }
    destruct (String.eqb_spec ty "random_uniform") as [->|N1].
    { split; [by intros ?%Hre|]. intros [_ Hn]. exfalso. apply Hn. elem_solve. }
    destruct (String.eqb_spec ty "random_nonuniform") as [->|N2].
    { split; [by intros ?%Hre|]. intros [_ Hn]. exfalso. apply Hn. elem_solve. }
    destruct (String.eqb_spec ty "grid_cube") as [->|N3].
    { split; [|intros [_ Hn]; exfalso; apply Hn; elem_solve].
      destruct (d =? 0); [by intros [? ?]|by intros ?%Hre]. }
    destruct (String.eqb_spec ty "grid_sphere") as [->|N4].
    { split; [by intros ?%Hre|]. intros [_ Hn]. exfalso. apply Hn. elem_solve. }
    assert (ty ∉ ["random_uniform"; "random_nonuniform"; "grid_cube"; "grid_sphere"]).
    { intros Hin. repeat (apply elem_of_cons in Hin as [Hin|Hin]; [done|]).
      by apply not_elem_of_nil in Hin. }
    destruct (String.eqb_spec ty "custom"); simpl; split; eauto.
Qed.

(** C8.  The call of [sample_grid_cube] carries [grid_size], [minv] and
    [maxv] and no [n_dims], where the calls of the other three samplers
    pass [n_dims].  So two ['grid_cube'] constructions with the same radius
    and the same grid size are handed the same array whatever their
    [n_dims], and hold the same entries; when their [n_dims] differ and
    the grid size is positive, they cannot both have [grid_size ^ n_dims]
    points. *)
Theorem grid_cube_count n1 d1 seed1 rnd1 n2 d2 seed2 rnd2 radius :
  d1 < d2 → grid_size np_power n1 d1 = grid_size np_power n2 d2 →
  (0 < grid_size np_power n1 d1)%Z →
  (∀ s1 s2,
     init sample_sphere_uniform sample_sphere_nonuniform sample_grid_cube
       sample_grid_sphere np_power "grid_cube" n1 radius d1 seed1 rnd1 None = Ok s1 →
     init sample_sphere_uniform sample_sphere_nonuniform sample_grid_cube
       sample_grid_sphere np_power "grid_cube" n2 radius d2 seed2 rnd2 None = Ok s2 →
     data (bps s1) = data (bps s2)
     ∧ numel (shape (bps s1)) = numel (shape (bps s2)))
  ∧ ¬ ((∃ s1,
          init sample_sphere_uniform sample_sphere_nonuniform sample_grid_cube
            sample_grid_sphere np_power "grid_cube" n1 radius d1 seed1 rnd1 None
          = Ok s1
          ∧ shape (bps s1)
            = [1; Z.to_nat (grid_size np_power n1 d1 ^ Z.of_nat d1); d1])
       ∧ (∃ s2,
            init sample_sphere_uniform sample_sphere_nonuniform sample_grid_cube
              sample_grid_sphere np_power "grid_cube" n2 radius d2 seed2 rnd2 None
            = Ok s2
            ∧ shape (bps s2)
              = [1; Z.to_nat (grid_size np_power n2 d2 ^ Z.of_nat d2); d2])).
Proof.
  intros Hd Hg Hpos.
  assert (∀ s1 s2,
    init sample_sphere_uniform sample_sphere_nonuniform sample_grid_cube
      sample_grid_sphere np_power "grid_cube" n1 radius d1 seed1 rnd1 None = Ok s1 →
    init sample_sphere_uniform sample_sphere_nonuniform sample_grid_cube
      sample_grid_sphere np_power "grid_cube" n2 radius d2 seed2 rnd2 None = Ok s2 →
    ∃ m q1 q2, data (bps s1) = data (bps s2)
      ∧ shape (bps s1) = [1; q1; d1] ∧ shape (bps s2) = [1; q2; d2]
      ∧ m = d1 * q1 ∧ m = d2 * q2) as Hsame.
  { intros s1 s2 H1 H2.
    apply init_grid_cube in H1 as (N1 & M1 & E1).
    apply init_grid_cube in H2 as (N2 & M2 & E2).
    rewrite <-Hg in M2, E2. rewrite E1, E2.
    set (t := sample_grid_cube _ _ _) in *.
    exists (numel (shape t)), (numel (shape t) / d1), (numel (shape t) / d2).
    split_and!; [done..| |]; by apply Nat.Div0.div_exact. }
  split.
  - intros s1 s2 H1 H2.
    destruct (Hsame s1 s2 H1 H2) as (m & q1 & q2 & Hdata & -> & -> & Hm1 & Hm2).
    split; [done|]. simpl. lia.
  - intros [(s1 & H1 & Hs1) (s2 & H2 & Hs2)].
    destruct (Hsame s1 s2 H1 H2) as (m & q1 & q2 & _ & Hq1 & Hq2 & Hm1 & Hm2).
    rewrite Hq1 in Hs1. rewrite Hq2 in Hs2.
    injection Hs1 as ->. injection Hs2 as ->. rewrite <-Hg in Hm2.
    set (g := grid_size np_power n1 d1) in *.
    assert (0 < g ^ Z.of_nat d1 ≤ g ^ Z.of_nat d2)%Z as Hpow.
    { split; [apply Z.pow_pos_nonneg; lia|apply Z.pow_le_mono_r; lia]. }
    nia.
Qed.

(** C9.  A point cloud of shape [[P_x, D]] is encoded exactly as the same
    data with shape [[1, P_x, D]], and deltas of shape [[P, D]] are decoded
    exactly as the same data with shape [[1, P, D]]. *)
Theorem unbatched_promotion (self : bps_torch T) (x : tensor T) P_x D ft xf cb :
  shape x = [P_x; D] →
  enc_points ch_dist self x ft xf cb
  = enc_points ch_dist self (Tensor [1; P_x; D] (data x)) ft xf cb
  ∧ decode self x cb = decode self (Tensor [1; P_x; D] (data x)) cb.
Proof.
  intros Hs. unfold enc_points, enc_points_loop, decode, ndim, unsqueeze0.
  rewrite Hs. done.
Qed.

(** C10.  When [feature_type] holds none of ['dists'], ['deltas'],
    ['closest'], ['features'] (the empty request and [['ids']] included),
    [enc_points] never returns: it raises, and once the loop has completed
    what it raises is the configuration error "Invalid cell type ...".  So
    ['ids'] cannot be asked for on its own. *)
Theorem no_recognized_feature (self : bps_torch T) x ft xf cb :
  "dists" ∉ ft → "deltas" ∉ ft → "closest" ∉ ft → "features" ∉ ft →
  ∃ e, enc_points ch_dist self x ft xf cb = Err e ∧
       (is_Ok (enc_points_loop ch_dist self x cb) → e = ValueError msg_invalid_cell).
Proof.
  intros H1 H2 H3 H4. unfold enc_points.
  destruct (enc_points_loop ch_dist self x cb) as [[[x' [[N P] D]] [deltas idxs]]|e]; simpl.
  - exists (ValueError msg_invalid_cell). split; [|done].
    unfold enc_points_features.
    rewrite !bool_decide_eq_false_2 by done. simpl. done.
  - exists e. split; [done|]. by intros [? ?].
Qed.
End claims.

(** * The claims on concrete inputs *)

(** C1 at [Ref.basis] and [Ref.clouds], in the exact arithmetic of [Z]. *)
Lemma encode_decode_round_trip_witness :
  ∃ deltas ids out,
    Ref.encoded !! "deltas" = Some (VFloat deltas) ∧
    Ref.encoded !! "ids" = Some (VLong ids) ∧
    decode Ref.basis deltas None = Ok out ∧ shape out = [2; 2; 2] ∧
    ∀ n p d, n < 2 → p < 2 → d < 2 →
      tget out [n; p; d] = tget Ref.clouds [n; tget ids [n; p]; d].
Proof.
  refine (encode_decode_round_trip (T := Z) (H := Z_scalar) Ref.nearest eq
            (λ a b : Z, Zplus_minus b a)
            Ref.basis Ref.clouds ["deltas"] None 2 3 2 2 Ref.encoded
            nearest_tensor nearest_shape eq_refl eq_refl _ _).
  - elem_solve.
  - vm_compute. reflexivity.
Defined.

(** C2: the ['features'] branch gathers the coordinates of [x].  For
    [Ref.clouds] with one feature per point ([Ref.side]) the matched
    indices are 0, 1, 2, 2; the returned features are the first
    coordinates 1, 9, 0, 0 of the matched points, whereas [x_features] at
    those indices holds 100, 200, 600, 600. *)
Lemma features_gathered_from_points :
  ∃ b, enc_points Ref.nearest Ref.basis Ref.clouds ["features"] (Some Ref.side) None
       = Ok b
    ∧ b !! "ids" = Some (VLong (Tensor [2; 2] [0; 1; 2; 2]))
    ∧ b !! "features" = Some (VFloat (Tensor [2; 2; 1] [1; 9; 0; 0]%Z))
    ∧ gather1 Ref.side (Tensor [2; 2; 1] [0; 1; 2; 2])
      = Ok (Tensor [2; 2; 1] [100; 200; 600; 600]%Z).
Proof. eexists. split_and!; vm_compute; reflexivity. Qed.

(** C3 at a basis batch of 3 against a batch of 2 clouds. *)
Lemma basis_batch_unchecked_witness :
  (2 = 0 →
     enc_points_loop Ref.nearest Ref.basis Ref.clouds (Some Ref.basis3)
     = Ok (Ref.clouds, (0, 1, 2), (full [0; 1; 2] zero, full [0; 1] 0)))
  ∧ (2 ≠ 0 →
     ∃ e, enc_points Ref.nearest Ref.basis Ref.clouds ["dists"] None (Some Ref.basis3)
          = Err e
          ∧ configuration_error e = false).
Proof.
  apply (basis_batch_unchecked Ref.nearest Ref.basis Ref.clouds ["dists"] None
           (Some Ref.basis3) 3 2 1 2 3 2); [reflexivity|reflexivity|lia|lia].
Defined.

(** C3 as stated fails: with a basis batch of 2 an empty batch of clouds is
    encoded, and with a basis batch of 3 a batch of 2 clouds fails with
    torch's shape error, which is not a configuration error. *)
Lemma basis_batch_counterexample :
  (∃ b, enc_points Ref.nearest Ref.basis (Tensor [0; 3; 2] []) ["dists"] None
          (Some (Tensor [2; 1; 2] [0; 0; 1; 1]%Z)) = Ok b)
  ∧ enc_points Ref.nearest Ref.basis Ref.clouds ["dists"] None (Some Ref.basis3)
    = Err RuntimeError
  ∧ configuration_error RuntimeError = false.
Proof. split_and!; [eexists|..]; vm_compute; reflexivity. Qed.

(** C4 as stated fails: asking for ['closest'] alone yields ['closest_ids']
    as well, and the bundle of [enc_mesh] has no ['ids']. *)
Lemma bundle_keys_counterexample :
  (∃ b, enc_points Ref.nearest Ref.basis Ref.clouds ["closest"] None None = Ok b
        ∧ is_Some (b !! "closest_ids") ∧ "closest_ids" ∉ ["closest"])
  ∧ (∃ b, (enc_mesh unit Ref.surface Ref.basis [()] ["dists"] None).2 = Ok b
        ∧ b !! "ids" = None).
Proof.
  split.
  - eexists. split; [vm_compute; reflexivity|]. split; [by eexists|not_elem_solve].
  - eexists. split; [vm_compute; reflexivity|]. reflexivity.
Qed.

(** C5 at [Ref.clouds], with ['features'] requested and no [x_features]. *)
Lemma features_need_x_features_witness :
  enc_points Ref.nearest Ref.basis Ref.clouds ["features"] None None
  = Err (ValueError msg_no_x_features).
Proof.
  refine (proj1 (features_need_x_features Ref.nearest Ref.basis Ref.clouds
                   ["features"] None None _ _ _ _ _ _ nearest_tensor _ _) eq_refl).
  - elem_solve.
  - vm_compute. reflexivity.
Defined.

(** C6 as stated fails: ['deltas'] requested beside ['dists'] is ignored
    without a warning. *)
Lemma mesh_warning_counterexample :
  "deltas" ∈ ["dists"; "deltas"]
  ∧ (enc_mesh unit Ref.surface Ref.basis [()] ["dists"; "deltas"] None).1 = []
  ∧ (∃ b, (enc_mesh unit Ref.surface Ref.basis [()] ["dists"; "deltas"] None).2
          = Ok b ∧ b !! "deltas" = None).
Proof.
  split_and!; [elem_solve|reflexivity|].
  eexists. split; [vm_compute; reflexivity|reflexivity].
Qed.

(** C7 as stated fails: ['custom'] is one of the five recognized names, and
    without a custom basis it is a configuration error. *)
Lemma init_configuration_counterexample :
  "custom" ∈ ["random_uniform"; "random_nonuniform"; "grid_cube"; "grid_sphere";
              "custom"]
  ∧ Ref.init "custom" 4 1%Z 3 13%Z false None = Err (ValueError msg_no_custom_basis).
Proof. split; [elem_solve|reflexivity]. Qed.

(** C8 at 4 points in 2 dimensions and 8 points in 3 dimensions, both of
    grid size 2, with a sampler whose grid has 3 dimensions: the first
    construction holds 12 points where [2 ^ 2] are expected.  The
    stand-in power gives the grid sizes 32 and 10 for 1000 points in 2 and
    3 dimensions. *)
Lemma grid_cube_count_witness :
  ((∀ s1 s2,
      Ref.init "grid_cube" 4 1%Z 2 13%Z false None = Ok s1 →
      Ref.init "grid_cube" 8 1%Z 3 13%Z false None = Ok s2 →
      data (bps s1) = data (bps s2)
      ∧ numel (shape (bps s1)) = numel (shape (bps s2)))
   ∧ ¬ ((∃ s1, Ref.init "grid_cube" 4 1%Z 2 13%Z false None = Ok s1
               ∧ shape (bps s1) = [1; 4; 2])
        ∧ (∃ s2, Ref.init "grid_cube" 8 1%Z 3 13%Z false None = Ok s2
                 ∧ shape (bps s2) = [1; 8; 3])))
  ∧ Ref.grid_size 4 2 = 2%Z ∧ Ref.grid_size 8 3 = 2%Z
  ∧ (∃ s1, Ref.init "grid_cube" 4 1%Z 2 13%Z false None = Ok s1
           ∧ shape (bps s1) = [1; 12; 2])
  ∧ (∃ s2, Ref.init "grid_cube" 8 1%Z 3 13%Z false None = Ok s2
           ∧ shape (bps s2) = [1; 8; 3])
  ∧ Ref.grid_size 1000 2 = 32%Z ∧ Ref.grid_size 1000 3 = 10%Z.
Proof.
  split.
  - apply (grid_cube_count (T := Z) Ref.no_sampler Ref.no_sampler
             Ref.sample_grid_cube Ref.no_sampler Ref.np_power
             4 2 13%Z false 8 3 13%Z false 1%Z);
      [lia|vm_compute; reflexivity|vm_compute; reflexivity].
  - split_and!; try (vm_compute; reflexivity);
      eexists; split; vm_compute; reflexivity.
Defined.

(** C9 at the single cloud [Ref.cloud]; both sides are a bundle and a
    tensor, not an exception. *)
Lemma unbatched_promotion_witness :
  (enc_points Ref.nearest Ref.basis Ref.cloud ["dists"] None None
   = enc_points Ref.nearest Ref.basis (Tensor [1; 3; 2] [1; 1; 9; 9; 5; 4]%Z)
       ["dists"] None None
   ∧ decode Ref.basis Ref.cloud None
     = decode Ref.basis (Tensor [1; 3; 2] [1; 1; 9; 9; 5; 4]%Z) None)
  ∧ is_Ok (enc_points Ref.nearest Ref.basis Ref.cloud ["dists"] None None)
  ∧ decode Ref.basis (Tensor [2; 2] [1; 1; -1; -1]%Z) None
    = Ok (Tensor [1; 2; 2] [1; 1; 9; 9]%Z).
Proof.
  split.
  - apply (unbatched_promotion Ref.nearest Ref.basis Ref.cloud 3 2). reflexivity.
  - split; [eexists|]; vm_compute; reflexivity.
Defined.

(** C10 at the request [['ids']]. *)
Lemma no_recognized_feature_witness :
  ∃ e, enc_points Ref.nearest Ref.basis Ref.clouds ["ids"] None None = Err e ∧
       (is_Ok (enc_points_loop Ref.nearest Ref.basis Ref.clouds None)
        → e = ValueError msg_invalid_cell).
Proof. apply (no_recognized_feature Ref.nearest); not_elem_solve. Defined.

(** * Further properties of [bps.py] *)

Lemma tget_tmap {A B} `{Inhabited A} `{Inhabited B} (f : A → B) (t : tensor A) idx :
  wf t → in_range (shape t) idx → tget (tmap f t) idx = f (tget t idx).
Proof.
  intros Hwf Hr. unfold tget, tmap. simpl. rewrite list_lookup_fmap.
  destruct (data t !! ravel (shape t) idx) eqn:E; [done|].
  apply lookup_ge_None in E. apply ravel_lt in Hr. unfold wf in Hwf. lia.
Qed.

Lemma setitem0_wf {A} `{Inhabited A} (dst : tensor A) i src r :
  setitem0 dst i src = Ok r → wf r.
Proof. intros (? & ? & _ & _ & _ & ->)%setitem0_Ok. apply wf_tabulate. Qed.

Lemma gather1_read {A} `{Inhabited A} (t : tensor A) index c N P_x D P F :
  gather1 t index = Ok c → shape t = [N; P_x; D] → shape index = [N; P; F] →
  shape c = [N; P; F] ∧
  ∀ n p f, n < N → p < P → f < F →
    tget c [n; p; f] = tget t [n; tget index [n; p; f]; f].
Proof.
  unfold gather1. intros Hc Ht Hi. rewrite Ht, Hi in Hc.
  assert (c = tabulate [N; P; F] (λ o, tget t (<[1 := tget index o]> o))) as ->.
  { destruct (numel _ =? 0); [by injection Hc|].
    destruct (_ && _); [by injection Hc|done]. }
  split; [done|].
  intros n p f Hn Hp Hf. by rewrite tget_tabulate by (apply in_range3; lia).
Qed.

Section bundle_values.
Context {T : Type} `{Scalar T}.
Variable ch_dist : tensor T → tensor T → option (tensor nat).

Lemma enc_points_features_values (x : tensor T) N P D deltas idxs ft xf b :
  enc_points_features x N P D deltas idxs ft xf = Ok b →
  ("dists" ∈ ft →
     ∃ s, tsum add zero (tmap (λ a, mul a a) deltas) 2 = Ok s
          ∧ b !! "dists" = Some (VFloat (tmap sqrt s)))
  ∧ ("closest" ∈ ft →
     ∃ v e c, view idxs [N; P; 1] = Ok v ∧ expand v [N; P; D] = Ok e
              ∧ gather1 x e = Ok c
              ∧ b !! "closest" = Some (VFloat c)
              ∧ b !! "closest_ids" = Some (VLong e))
  ∧ ("features" ∈ ft →
     ∃ f, gather_features x idxs N P xf = Ok f
          ∧ b !! "features" = Some (VFloat f)).
Proof.
  unfold enc_points_features. intros Hb.
  apply bind_Ok in Hb as (m1 & H1 & Hb).
  apply bind_Ok in Hb as (m2 & H2 & Hb).
  apply bind_Ok in Hb as (m3 & H3 & Hb).
  apply bind_Ok in Hb as (m4 & H4 & Hb).
  destruct (size m4 <? 1); [done|].
  assert (b = <["ids" := VLong idxs]> m4) as -> by congruence. clear Hb.
  assert (∀ k, k ≠ "deltas" → m2 !! k = m1 !! k) as K2.
  { intros k Hk. destruct (bool_decide ("deltas" ∈ ft)); injection H2 as <-;
      [by rewrite lookup_insert_ne|done]. }
  assert (∀ k, k ≠ "closest" → k ≠ "closest_ids" → m3 !! k = m2 !! k) as K3.
  { intros k Hk Hk'. destruct (bool_decide ("closest" ∈ ft)); [|by injection H3 as <-].
    apply bind_Ok in H3 as (v & _ & H3). apply bind_Ok in H3 as (e & _ & H3).
    apply bind_Ok in H3 as (c & _ & [= <-]). by rewrite !lookup_insert_ne. }
  assert (∀ k, k ≠ "features" → m4 !! k = m3 !! k) as K4.
  { intros k Hk. destruct (bool_decide ("features" ∈ ft)); [|by injection H4 as <-].
    destruct (gather_features _ _ _ _ _) as [f|]; [|done].
    injection H4 as <-. by rewrite lookup_insert_ne. }
  split_and!.
  - intros Hft. rewrite (bool_decide_eq_true_2 _ Hft) in H1.
    apply bind_Ok in H1 as (s & Hs & [= <-]). exists s. split; [done|].
    rewrite lookup_insert_ne, K4, K3, K2 by done. by rewrite lookup_insert_eq.
  - intros Hft. rewrite (bool_decide_eq_true_2 _ Hft) in H3.
    apply bind_Ok in H3 as (v & Hv & H3). apply bind_Ok in H3 as (e & He & H3).
    apply bind_Ok in H3 as (c & Hc & [= <-]). exists v, e, c.
    split_and!; [done..| |].
    + rewrite lookup_insert_ne, K4 by done.
      by rewrite lookup_insert_ne, lookup_insert_eq.
    + rewrite lookup_insert_ne, K4 by done. by rewrite lookup_insert_eq.
  - intros Hft. rewrite (bool_decide_eq_true_2 _ Hft) in H4.
    destruct (gather_features _ _ _ _ _) as [f|]; [|done].
    injection H4 as <-. exists f. split; [done|].
    by rewrite lookup_insert_ne, lookup_insert_eq.
Qed.

Lemma enc_points_inv self x ft xf cb b :
  enc_points ch_dist self x ft xf cb = Ok b →
  ∃ x' N P D deltas idxs,
    enc_points_loop ch_dist self x cb = Ok (x', (N, P, D), (deltas, idxs))
    ∧ enc_points_features x' N P D deltas idxs ft xf = Ok b
    ∧ b !! "ids" = Some (VLong idxs)
    ∧ ("deltas" ∈ ft → b !! "deltas" = Some (VFloat deltas)).
Proof.
  unfold enc_points. intros Hb.
  apply bind_Ok in Hb as ([[x' [[N P] D]] [deltas idxs]] & Hloop & Hb).
  exists x', N, P, D, deltas, idxs. split_and!; [done..| |].
  - apply enc_points_features_Ok in Hb as (d & c & f & e & ->). apply bundle_of_ids.
  - intros Hft. apply enc_points_features_Ok in Hb as (d & c & f & e & ->).
    by apply bundle_of_deltas.
Qed.

(** X7.  The ['ids'] of a returned bundle have shape [[N, P]] and every
    one of them is the index of a point of its input cloud: below [P_x]. *)
Theorem ids_in_range self x ft xf cb b :
  oracle_tensor ch_dist →
  enc_points ch_dist self x ft xf cb = Ok b →
  ∃ ids N P P_x D Nb Db,
    b !! "ids" = Some (VLong ids)
    ∧ shape (if 2 <? ndim x then x else unsqueeze0 x) = [N; P_x; D]
    ∧ shape (if cb is Some c then c else bps self) = [Nb; P; Db]
    ∧ shape ids = [N; P]
    ∧ ∀ n p, n < N → p < P → tget ids [n; p] < P_x.
Proof.
  intros Hwf (x' & N & P & D & deltas & idxs & Hloop & _ & Hids & _)%enc_points_inv.
  pose proof Hloop as (Nb & Db & P_x & -> & Hb & Hx & _)%enc_points_loop_Ok.
  apply enc_points_loop_filled in Hloop as (P_x' & Hx' & (_ & Hi & Hlt)); [|done].
  rewrite Hx in Hx'. injection Hx' as <-.
  exists idxs, N, P, P_x, D, Nb, Db. done.
Qed.

(** X10.  When ['closest'] is requested, ['closest'] and ['closest_ids']
    have shape [[N, P, D]]; [closest[n, p, d]] is the coordinate
    [x[n, ids[n, p], d]] of the matched input point, exactly, and
    [closest_ids[n, p, d]] repeats [ids[n, p]] along the last dimension. *)
Theorem closest_is_matched_point self x ft xf cb b :
  oracle_tensor ch_dist → "closest" ∈ ft →
  enc_points ch_dist self x ft xf cb = Ok b →
  ∃ ids closest closest_ids N P P_x D,
    b !! "ids" = Some (VLong ids) ∧ b !! "closest" = Some (VFloat closest)
    ∧ b !! "closest_ids" = Some (VLong closest_ids)
    ∧ shape (if 2 <? ndim x then x else unsqueeze0 x) = [N; P_x; D]
    ∧ shape closest = [N; P; D] ∧ shape closest_ids = [N; P; D]
    ∧ ∀ n p d, n < N → p < P → d < D →
        tget closest_ids [n; p; d] = tget ids [n; p]
        ∧ tget closest [n; p; d]
          = tget (if 2 <? ndim x then x else unsqueeze0 x) [n; tget ids [n; p]; d].
Proof.
  intros Hwf Hft (x' & N & P & D & deltas & idxs & Hloop & Hfeat & Hids & _)%enc_points_inv.
  pose proof Hloop as (Nb & Db & P_x & -> & Hb & Hx & _)%enc_points_loop_Ok.
  apply enc_points_loop_filled in Hloop as (P_x' & Hx' & (_ & Hi & Hlt)); [|done].
  rewrite Hx in Hx'. injection Hx' as <-. cbn [fst snd] in *.
  apply enc_points_features_values in Hfeat as (_ & Hc & _).
  destruct (Hc Hft) as (v & e & c & Hv & He & Hg & Hbc & Hbe).
  destruct (expand_ids idxs N P D P_x Hi Hlt) as (v' & e' & Hv' & He' & Hes & _ & Hev).
  rewrite Hv in Hv'. injection Hv' as <-. rewrite He in He'. injection He' as <-.
  eapply gather1_read in Hg as [Hcs Hcv]; [|done..].
  exists idxs, c, e, N, P, P_x, D. split_and!; [done..|].
  intros n p d Hn Hp Hd. split; [by apply Hev|].
  by rewrite Hcv, Hev.
Qed.
End bundle_values.

Section basis_rows.
Context {T : Type} `{Scalar T}.
Variable ch_dist : tensor T → tensor T → option (tensor nat).

Lemma basis_item_Y (bps : tensor T) Nb N P D k Y :
  shape bps = [Nb; P; D] → Nb = N ∨ Nb = 1 → k < N →
  (if Nb =? N then slice0 bps k (k + 1) else Ok bps) = Ok Y →
  shape Y = [1; P; D] ∧
  ∀ p d, p < P → d < D → tget Y [0; p; d] = tget bps [basis_row Nb N k; p; d].
Proof.
  intros Hb HNb Hk HY. unfold basis_row. destruct (Nb =? N) eqn:EN.
  - apply Nat.eqb_eq in EN as ->.
    apply (slice0_one _ N P D) in HY as ->; [|done..]. split; [done|].
    intros p d Hp Hd. rewrite tget_tabulate by (apply in_range3; lia).
    by rewrite Nat.add_0_r.
  - apply Nat.eqb_neq in EN. destruct HNb as [?| ->]; [done|].
    by injection HY as <-.
Qed.

Lemma enc_points_step_matched_rows bps x Nb N P D P_x k st st' :
  oracle_tensor ch_dist → oracle_shape ch_dist →
  shape bps = [Nb; P; D] → Nb = N ∨ Nb = 1 → shape x = [N; P_x; D] → k < N →
  matched_rows bps x Nb N P D P_x k st →
  enc_points_step ch_dist bps x Nb N st k = Ok st' →
  matched_rows bps x Nb N P D P_x (S k) st'.
Proof.
  intros Hwf Hsh Hb HNb Hx Hk [Hfill Hval] Hstep.
  split; [by eapply enc_points_step_filled|].
  destruct Hfill as (Hd & Hi & Hlt).
  destruct st as [deltas idxs], st' as [deltas' idxs']. cbn [fst snd] in *.
  apply enc_points_step_Ok in Hstep
    as (Y & X & idx & picked & diff & HY & HX & Hor & Hpick & Hdiff & Hsd & Hsi).
  apply (basis_item_Y bps Nb N P D) in HY as [HYs HYv]; [|done..].
  apply (slice0_one _ N P_x D) in HX; [|done..].
  pose proof (Hsh _ _ _ _ _ _ HYs Hor) as Hidx.
  pose proof (Hwf _ _ _ Hor) as Hidxwf.
  assert (Forall (λ i, i < P_x) (data idx)) as Hlt'.
  { eapply index1_inv in Hpick as [? _]; [done|]. by rewrite HX. }
  apply (index1_read _ _ _ P_x D P) in Hpick as [Hps Hpv]; [|by rewrite HX|done].
  apply (tzip_read _ _ _ _ P D) in Hdiff as [Hfs Hfv]; [|done..].
  intros n p d Hn Hp Hdd.
  eapply tget_setitem0 in Hsd as [_ ->]; [|done|lia|by repeat constructor].
  eapply tget_setitem0 in Hsi as [_ ->]; [|done|lia|by repeat constructor].
  destruct (n =? k) eqn:Enk; [|apply Nat.eqb_neq in Enk; apply Hval; [lia|done..]].
  apply Nat.eqb_eq in Enk as ->.
  rewrite Hfs, Hidx, bidx_11PD_2, bidx_1P, Hfv, Hpv, HYv by done.
  assert (tget idx [0; p] < P_x) as Hip.
  { rewrite Forall_forall in Hlt'. apply Hlt', tget_elem_of; [done|].
    rewrite Hidx. apply in_range2; lia. }
  rewrite HX, tget_tabulate by (apply in_range3; lia).
  by rewrite Nat.add_0_r.
Qed.

Lemma enc_points_loop_matched_rows self x cb x' N P D deltas idxs Nb :
  oracle_tensor ch_dist → oracle_shape ch_dist →
  shape (if cb is Some c then c else bps self) = [Nb; P; D] → Nb = N ∨ Nb = 1 →
  enc_points_loop ch_dist self x cb = Ok (x', (N, P, D), (deltas, idxs)) →
  ∃ P_x, shape x' = [N; P_x; D]
    ∧ matched_rows (if cb is Some c then c else bps self) x' Nb N P D P_x N
        (deltas, idxs).
Proof.
  intros Hwf Hsh Hb HNb (Nb' & Db & P_x & _ & Hb' & Hx & Hrun)%enc_points_loop_Ok.
  rewrite Hb in Hb'. injection Hb' as <- <-.
  exists P_x. split; [done|].
  eapply (for_each_seq_inv _
            (matched_rows (if cb is Some c then c else bps self) x' Nb N P D P_x));
    [| |done].
  - intros k s s' Hk Hs Hstep. by eapply enc_points_step_matched_rows.
  - split; [split_and!; [done..|]|]; intros; lia.
Qed.

Lemma enc_points_loop_wf self x cb x' N P D deltas idxs :
  enc_points_loop ch_dist self x cb = Ok (x', (N, P, D), (deltas, idxs)) →
  wf deltas ∧ wf idxs.
Proof.
  intros (Nb & Db & P_x & _ & _ & _ & Hrun)%enc_points_loop_Ok.
  eapply (for_each_seq_inv _ (λ _ st, wf st.1 ∧ wf st.2)) in Hrun; [done| |].
  - intros k [d i] [d' i'] _ _ Hstep.
    apply enc_points_step_Ok in Hstep as (? & ? & ? & ? & ? & _ & _ & _ & _ & _ & Hd & Hi).
    split; by eapply setitem0_wf.
  - split; apply wf_tabulate.
Qed.

(** The hypotheses shared by the theorems below, and what they give. *)
Lemma enc_points_offsets self x ft xf cb b Nb N P P_x D :
  oracle_tensor ch_dist → oracle_shape ch_dist →
  shape (if cb is Some c then c else bps self) = [Nb; P; D] → Nb = N ∨ Nb = 1 →
  shape x = [N; P_x; D] →
  enc_points ch_dist self x ft xf cb = Ok b →
  ∃ deltas ids,
    enc_points_features x N P D deltas ids ft xf = Ok b
    ∧ b !! "ids" = Some (VLong ids)
    ∧ ("deltas" ∈ ft → b !! "deltas" = Some (VFloat deltas))
    ∧ wf deltas ∧ shape deltas = [N; P; D] ∧ shape ids = [N; P]
    ∧ (∀ n p, n < N → p < P → tget ids [n; p] < P_x)
    ∧ ∀ n p d, n < N → p < P → d < D →
        tget deltas [n; p; d]
        = sub (tget x [n; tget ids [n; p]; d])
              (tget (if cb is Some c then c else bps self) [basis_row Nb N n; p; d]).
Proof.
  intros Hwf Hsh Hb HNb Hx
    (x' & N' & P' & D' & deltas & idxs & Hloop & Hfeat & Hids & Hdl)%enc_points_inv.
  pose proof Hloop as (Nb' & Db & Px' & Hx' & Hb' & Hxs & _)%enc_points_loop_Ok.
  unfold ndim in Hx'. rewrite Hx in Hx'. simpl in Hx'. subst x'.
  rewrite Hx in Hxs. injection Hxs as <- <- <-.
  rewrite Hb in Hb'. injection Hb' as <- <- <-.
  pose proof (enc_points_loop_wf _ _ _ _ _ _ _ _ _ Hloop) as [Hdw _].
  apply (enc_points_loop_matched_rows _ _ _ _ _ _ _ _ _ Nb) in Hloop
    as (Px' & Hxs & [(Hd & Hi & Hlt) Hval]); [|done..].
  rewrite Hx in Hxs. injection Hxs as <-. cbn [fst snd] in *.
  exists deltas, idxs. done.
Qed.
End basis_rows.

Lemma bidx_batch Nb N P D n p d :
  Nb = N ∨ Nb = 1 → n < N → p < P → d < D →
  bidx [Nb; P; D] [n; p; d] = [basis_row Nb N n; p; d].
Proof.
  intros HNb Hn Hp Hd. unfold bidx, reverse, basis_row. simpl.
  rewrite (clamp_lt D d), (clamp_lt P p) by done.
  destruct (Nb =? 1) eqn:E1, (Nb =? N) eqn:EN; try done.
  - apply Nat.eqb_eq in E1, EN. subst. do 2 f_equal. lia.
  - apply Nat.eqb_neq in E1, EN. lia.
Qed.

Section offsets.
Context {T : Type} `{Scalar T}.
Variable ch_dist : tensor T → tensor T → option (tensor nat).

(** X8.  With a basis shared by the batch ([Nb = 1]) or one per item
    ([Nb = N]), custom or not, the returned ['deltas'] have shape
    [[N, P, D]] and [deltas[n, p, d]] is the matched input point minus the
    basis point: [x[n, ids[n, p], d] - basis[row, p, d]], where [row] is
    [n] for a basis per item and 0 for a shared one. *)
Theorem deltas_are_offsets self x ft xf cb b Nb N P P_x D :
  oracle_tensor ch_dist → oracle_shape ch_dist →
  shape (if cb is Some c then c else bps self) = [Nb; P; D] → Nb = N ∨ Nb = 1 →
  shape x = [N; P_x; D] → "deltas" ∈ ft →
  enc_points ch_dist self x ft xf cb = Ok b →
  ∃ deltas ids,
    b !! "deltas" = Some (VFloat deltas) ∧ b !! "ids" = Some (VLong ids)
    ∧ shape deltas = [N; P; D]
    ∧ ∀ n p d, n < N → p < P → d < D →
        tget deltas [n; p; d]
        = sub (tget x [n; tget ids [n; p]; d])
              (tget (if cb is Some c then c else bps self) [basis_row Nb N n; p; d]).
Proof.
  intros Hwf Hsh Hb HNb Hx Hft Henc.
  destruct (enc_points_offsets ch_dist _ _ _ _ _ _ _ _ _ _ _ Hwf Hsh Hb HNb Hx Henc)
    as (deltas & ids & _ & Hids & Hdl & _ & Hd & _ & _ & Hval).
  exists deltas, ids. auto.
Qed.

(** X9.  Under the same conditions the returned ['dists'] have shape
    [[N, P]] and [dists[n, p]] is the square root of the sum over [d] of
    the squared offsets between the basis point and the matched input
    point [x[n, ids[n, p]]]. *)
Theorem dists_are_norms self x ft xf cb b Nb N P P_x D :
  oracle_tensor ch_dist → oracle_shape ch_dist →
  shape (if cb is Some c then c else bps self) = [Nb; P; D] → Nb = N ∨ Nb = 1 →
  shape x = [N; P_x; D] → "dists" ∈ ft →
  enc_points ch_dist self x ft xf cb = Ok b →
  ∃ dists ids,
    b !! "dists" = Some (VFloat dists) ∧ b !! "ids" = Some (VLong ids)
    ∧ shape dists = [N; P]
    ∧ ∀ n p, n < N → p < P →
        tget dists [n; p]
        = sqrt (foldr add zero
                  ((λ d, let off :=
                           sub (tget x [n; tget ids [n; p]; d])
                               (tget (if cb is Some c then c else bps self)
                                     [basis_row Nb N n; p; d]) in
                         mul off off) <$> seq 0 D)).
Proof.
  intros Hwf Hsh Hb HNb Hx Hft Henc.
  destruct (enc_points_offsets ch_dist _ _ _ _ _ _ _ _ _ _ _ Hwf Hsh Hb HNb Hx Henc)
    as (deltas & ids & Hfeat & Hids & _ & Hdw & Hd & _ & _ & Hval).
  apply enc_points_features_values in Hfeat as (Hds & _ & _).
  destruct (Hds Hft) as (s & Hs & Hbd).
  unfold tsum in Hs. cbn [tmap shape] in Hs. rewrite Hd in Hs. simpl in Hs.
  injection Hs as <-.
  eexists _, ids. split_and!; [done..|].
  intros n p Hn Hp.
  rewrite tget_tmap; [|apply wf_tabulate|by apply in_range2].
  rewrite tget_tabulate by by apply in_range2. simpl. f_equal. f_equal.
  apply list_fmap_ext. intros i d [-> Hi]%lookup_seq. simpl.
  rewrite tget_tmap; [|done|rewrite Hd; by apply in_range3].
  by rewrite Hval.
Qed.

Variable approx : T → T → Prop.
Hypothesis add_sub : ∀ a b, approx (add b (sub a b)) a.

(** X12.  The round trip with any basis, custom or not, shared by the
    batch or one per item: decoding the returned deltas with the same
    [custom_basis] succeeds and gives back, within tolerance, the matched
    input points. *)
Theorem custom_basis_round_trip self x ft xf cb b Nb N P P_x D :
  oracle_tensor ch_dist → oracle_shape ch_dist →
  shape (if cb is Some c then c else bps self) = [Nb; P; D] → Nb = N ∨ Nb = 1 →
  shape x = [N; P_x; D] → "deltas" ∈ ft →
  enc_points ch_dist self x ft xf cb = Ok b →
  ∃ deltas ids out,
    b !! "deltas" = Some (VFloat deltas) ∧ b !! "ids" = Some (VLong ids)
    ∧ decode self deltas cb = Ok out ∧ shape out = [N; P; D]
    ∧ ∀ n p d, n < N → p < P → d < D →
        approx (tget out [n; p; d]) (tget x [n; tget ids [n; p]; d]).
Proof using add_sub.
  intros Hwf Hsh Hb HNb Hx Hft Henc.
  destruct (enc_points_offsets ch_dist _ _ _ _ _ _ _ _ _ _ _ Hwf Hsh Hb HNb Hx Henc)
    as (deltas & ids & _ & Hids & Hdl & _ & Hd & _ & _ & Hval).
  set (basis := if cb is Some c then c else bps self) in *.
  assert (expandable_rev (reverse (shape basis)) (reverse [N; P; D]) = true) as Hex.
  { rewrite Hb. cbv [reverse rev_append]. simpl. rewrite !Nat.eqb_refl. simpl.
    destruct HNb as [->| ->]; by rewrite ?Nat.eqb_refl, ?orb_true_r. }
  assert (∃ out, decode self deltas cb = Ok out ∧ shape out = [N; P; D]
            ∧ ∀ n p d, n < N → p < P → d < D →
                tget out [n; p; d]
                = add (tget basis [basis_row Nb N n; p; d]) (tget deltas [n; p; d]))
    as (out & Hout & Hos & Hov).
  { unfold decode, ndim. rewrite Hd. fold basis. rewrite Hb. simpl.
    rewrite Hb, Hd. simpl. unfold expand. rewrite Hex. simpl.
    destruct (tzip add _ deltas) as [out|] eqn:Hz.
    2:{ exfalso. unfold tzip, broadcast_shapes in Hz. simpl in Hz. rewrite Hd in Hz.
        cbv [reverse rev_append] in Hz. simpl in Hz. by rewrite !bdim_refl in Hz. }
    exists out. split; [done|].
    apply (tzip_read_same _ _ _ _ N P D) in Hz as [Hzs Hzv]; [|done..].
    split; [done|]. intros n p d Hn Hp Hdd. rewrite Hzv by done.
    rewrite tget_tabulate by by apply in_range3.
    by rewrite Hb, (bidx_batch Nb N). }
  exists deltas, ids, out. split_and!; [auto..|].
  intros n p d Hn Hp Hdd. rewrite Hov, Hval by done. apply add_sub.
Qed.
End offsets.

Section construction.
Context {T : Type} `{Scalar T}.
Variable ch_dist : tensor T → tensor T → option (tensor nat).
Variable mesh : Type.
Variable point2surface : list mesh → tensor T → option (tensor T).
Variable sample_sphere_uniform : nat → nat → T → Z → tensor T.
Variable sample_sphere_nonuniform : nat → nat → T → Z → tensor T.
Variable sample_grid_cube : Z → T → T → tensor T.
Variable sample_grid_sphere : nat → nat → T → bool → tensor T.
Variable np_power : nat → nat → Q.

(** X1.  Whatever the strategy, a construction that succeeds was given
    [n_dims >= 1] and leaves a basis of shape [[1, P, n_dims]]: the
    [reshape(1, -1, n_dims)] of [__init__]. *)
Theorem init_basis_shape ty n r d seed rnd cb self :
  init sample_sphere_uniform sample_sphere_nonuniform sample_grid_cube
    sample_grid_sphere np_power ty n r d seed rnd cb = Ok self →
  d ≠ 0 ∧ ∃ P, shape (bps self) = [1; P; d].
Proof.
  unfold init. intros Hi. apply bind_Ok in Hi as (basis & _ & Hi).
  apply bind_Ok in Hi as (b & Hb & [= <-]).
  apply reshape_infer_Ok in Hb as (Hd & _ & ->). eauto.
Qed.

(** X2.  A custom basis is taken as it is stored and regrouped [n_dims]
    entries at a time, whatever its own shape and whatever [bps_type]:
    when [n_dims >= 1] divides its number of entries the object holds the
    same entries in the same order with shape
    [[1, entries / n_dims, n_dims]]; otherwise the construction fails with
    torch's error, not with a configuration error. *)
Theorem custom_basis_regrouped ty n r d seed rnd (c : tensor T) :
  (d ≠ 0 → numel (shape c) mod d = 0 →
     init sample_sphere_uniform sample_sphere_nonuniform sample_grid_cube
       sample_grid_sphere np_power ty n r d seed rnd (Some c)
     = Ok (BpsTorch (Tensor [1; numel (shape c) / d; d] (data c))))
  ∧ (d = 0 ∨ numel (shape c) mod d ≠ 0 →
     init sample_sphere_uniform sample_sphere_nonuniform sample_grid_cube
       sample_grid_sphere np_power ty n r d seed rnd (Some c)
     = Err RuntimeError).
Proof.
  unfold init. simpl. split.
  - intros Hd Hm. destruct (reshape_infer c [1] [d]) as [b|e] eqn:Hr.
    + by apply reshape_infer_Ok in Hr as (_ & _ & ->).
    + unfold reshape_infer in Hr. simpl in Hr.
      replace (d * 1 + 0) with d in Hr by lia. rewrite Hm in Hr.
      by replace (d =? 0) with false in Hr by (symmetry; by apply Nat.eqb_neq).
  - intros Hf. by rewrite reshape_infer_fail.
Qed.

(** X14.  [decode] of deltas of shape [[P, D]] returns a tensor of shape
    [[1, P, D]] (the batch dimension it adds is kept), with
    [out[0, p, d] = basis[0, p, d] + x_deltas[p, d]]. *)
Theorem decode_unbatched self (x : tensor T) P D :
  shape (bps self) = [1; P; D] → shape x = [P; D] →
  ∃ out, decode self x None = Ok out ∧ shape out = [1; P; D]
    ∧ ∀ p d, p < P → d < D →
        tget out [0; p; d] = add (tget (bps self) [0; p; d]) (tget x [p; d]).
Proof.
  intros Hb Hx.
  destruct (decode_shared self (unsqueeze0 x) 1 P D Hb) as (out & Hout & Hos & Hov).
  { simpl. by rewrite Hx. }
  exists out. split_and!; [|done|].
  - rewrite <-Hout. unfold decode, ndim. simpl. by rewrite Hx.
  - intros p d Hp Hd. by rewrite Hov by lia.
Qed.

(** X3.  A custom basis handed to [enc_points] or to [decode] must have
    three dimensions.  With fewer (a [[P, D]] array, which the constructor
    accepts) both fail with the [ValueError] of unpacking its shape,
    whatever the input; the [unsqueeze] that [decode] applies to a basis of
    less than two dimensions does not change that. *)
Theorem custom_basis_needs_batch self x ft xf (c : tensor T) :
  ndim c < 3 →
  (∃ msg, enc_points ch_dist self x ft xf (Some c) = Err (ValueError msg))
  ∧ (∃ msg, decode self x (Some c) = Err (ValueError msg)).
Proof.
  unfold ndim. intros Hc. unfold enc_points, enc_points_loop, decode, ndim.
  destruct (shape c) as [|a [|b' [|b'' [|? ?]]]] eqn:Es; simpl in Hc; try lia;
    simpl; rewrite ?Es; simpl; eauto.
Qed.

(** X4.  [enc_points] and [decode] take an input of two or three
    dimensions: any other number of dimensions fails with the [ValueError]
    of unpacking [x.shape], before the oracle is called. *)
Theorem input_rank self (x : tensor T) ft xf cb Nb P Db :
  shape (if cb is Some c then c else bps self) = [Nb; P; Db] →
  ndim x ≠ 2 → ndim x ≠ 3 →
  (∃ msg, enc_points ch_dist self x ft xf cb = Err (ValueError msg))
  ∧ (∃ msg, decode self x cb = Err (ValueError msg)).
Proof.
  unfold ndim. intros Hb H2 H3. unfold enc_points, enc_points_loop, decode, ndim.
  rewrite Hb.
  destruct (shape x) as [|a [|b' [|b'' [|? ?]]]] eqn:Es; simpl in *; try lia;
    rewrite ?Hb, ?Es; simpl; eauto.
Qed.

Lemma enc_points_step_oracle_fails (bps x : tensor T) Nb N P Db P_x D st k :
  shape bps = [Nb; P; Db] → shape x = [N; P_x; D] →
  (∀ Y X, ch_dist Y X = None) →
  enc_points_step ch_dist bps x Nb N st k = Err OracleFailure.
Proof.
  intros Hb Hx Hor. destruct st as [deltas idxs].
  unfold enc_points_step, slice0. rewrite Hb, Hx.
  destruct (Nb =? N); cbn [mbind result_bind]; by rewrite Hor.
Qed.

(** X5.  The requested features are looked at only after the loop: on a
    non-empty batch, when the oracle fails the call fails with the
    oracle's failure, whatever [feature_type] and [x_features] are (an
    unrecognized request included). *)
Theorem oracle_failure_first self (x : tensor T) ft xf cb Nb N P Db P_x D :
  shape (if cb is Some c then c else bps self) = [Nb; P; Db] →
  shape x = [N; P_x; D] → N ≠ 0 →
  (∀ Y X, ch_dist Y X = None) →
  enc_points ch_dist self x ft xf cb = Err OracleFailure.
Proof.
  intros Hb Hx HN Hor. unfold enc_points, enc_points_loop, ndim.
  rewrite Hx. simpl. rewrite Hb, Hx. simpl.
  destruct N as [|N']; [done|]. cbn [seq for_each].
  by rewrite (enc_points_step_oracle_fails _ _ Nb (S N') P Db P_x D).
Qed.
End construction.

Lemma tabulate_ext {A} s (f g : list nat → A) :
  (∀ o, in_range s o → f o = g o) → tabulate s f = tabulate s g.
Proof.
  intros Hfg. unfold tabulate. f_equal. apply list_fmap_ext.
  intros i o Ho. apply Hfg, in_range_indices. by eapply list_elem_of_lookup_2.
Qed.

Lemma indices_lookup_ravel s i o : indices s !! i = Some o → ravel s o = i.
Proof.
  revert i o. induction s as [|n s IH]; intros i o Ho.
  - destruct i; simpl in Ho; [by injection Ho as <-|done].
  - pose proof (lookup_lt_Some _ _ _ Ho) as Hi. rewrite length_indices in Hi.
    change (numel (n :: s)) with (n * numel s) in Hi.
    assert (numel s ≠ 0) as Hm by lia.
    pose proof (Nat.div_mod i (numel s) Hm) as Hdm.
    pose proof (Nat.mod_upper_bound i (numel s) Hm) as Hr.
    assert (i / numel s < n) as Hq by (apply Nat.Div0.div_lt_upper_bound; lia).
    change (indices (n :: s)) with (a ← seq 0 n; (a ::.) <$> indices s) in Ho.
    rewrite Hdm, (Nat.mul_comm (numel s)) in Ho.
    erewrite (lookup_bind_blocks _ _ (numel s)) in Ho; cycle 1.
    { intros x. by rewrite length_fmap, length_indices. }
    { by apply lookup_seq. }
    { done. }
    rewrite list_lookup_fmap in Ho.
    destruct (indices s !! (i mod numel s)) as [o'|] eqn:Ho'; [|done].
    injection Ho as <-. simpl. rewrite (IH _ _ Ho'). lia.
Qed.

Lemma tabulate_tget {A} `{Inhabited A} (t : tensor A) :
  wf t → tabulate (shape t) (tget t) = t.
Proof.
  intros Hwf. destruct t as [s l]. unfold tabulate, wf in *. simpl in *. f_equal.
  apply list_eq. intros i. rewrite list_lookup_fmap.
  destruct (indices s !! i) as [o|] eqn:Ho; simpl.
  - pose proof (lookup_lt_Some _ _ _ Ho) as Hi. rewrite length_indices in Hi.
    apply indices_lookup_ravel in Ho as <-. unfold tget. simpl.
    destruct (l !! ravel s o) eqn:E; [done|].
    apply lookup_ge_None in E. lia.
  - apply lookup_ge_None in Ho. rewrite length_indices in Ho.
    symmetry. apply lookup_ge_None. lia.
Qed.

Section single_item.
Context {T : Type} `{Scalar T}.
Variable ch_dist : tensor T → tensor T → option (tensor nat).

Lemma slice0_whole (t : tensor T) P D :
  shape t = [1; P; D] → wf t → slice0 t 0 1 = Ok t.
Proof.
  intros Hs Hwf. unfold slice0. rewrite Hs. simpl. f_equal.
  transitivity (tabulate (shape t) (tget t)); [|by apply tabulate_tget].
  rewrite Hs. apply tabulate_ext. intros o Hr. destruct o; [by inversion Hr|done].
Qed.

Lemma shared_Y_is_basis (bps : tensor T) N P D k Y :
  shape bps = [1; P; D] → wf bps → k < N →
  (if 1 =? N then slice0 bps k (k + 1) else Ok bps) = Ok Y → Y = bps.
Proof.
  intros Hs Hwf Hk HY. destruct (1 =? N) eqn:EN; [|by injection HY].
  apply Nat.eqb_eq in EN. assert (k = 0) as -> by lia.
  rewrite (slice0_whole _ P D) in HY by done. by injection HY.
Qed.

Lemma enc_points_step_alone bps x N P D P_x k deltas idxs deltas' idxs' :
  shape bps = [1; P; D] → wf bps → shape x = [N; P_x; D] → k < N →
  shape deltas = [N; P; D] → shape idxs = [N; P] →
  enc_points_step ch_dist bps x 1 N (deltas, idxs) k = Ok (deltas', idxs') →
  ∃ d1 i1,
    enc_points_step ch_dist bps (item x P_x D k) 1 1
      (full [1; P; D] zero, full [1; P] 0) 0 = Ok (d1, i1)
    ∧ (∀ p d, p < P → d < D → tget d1 [0; p; d] = tget deltas' [k; p; d])
    ∧ (∀ p, p < P → tget i1 [0; p] = tget idxs' [k; p]).
Proof.
  intros Hb Hwf Hx Hk Hd Hi Hstep.
  apply enc_points_step_Ok in Hstep
    as (Y & X & idx & picked & diff & HY & HX & Hor & Hpick & Hdiff & Hsd & Hsi).
  apply (shared_Y_is_basis bps N P D) in HY as ->; [|done..].
  apply (slice0_one _ N P_x D) in HX; [|done..]. fold (item x P_x D k) in HX.
  subst X.
  pose proof Hsd as (n0 & rest & Hds & _ & Had & _)%setitem0_Ok.
  rewrite Hd in Hds. injection Hds as <- <-.
  pose proof Hsi as (n0 & rest & His & _ & Hai & _)%setitem0_Ok.
  rewrite Hi in His. injection His as <- <-.
  unfold enc_points_step. change (1 =? 1) with true. change (0 + 1) with 1.
  cbn iota.
  rewrite (slice0_whole bps P D) by done. cbn [mbind result_bind].
  rewrite (slice0_whole (item x P_x D k) P_x D) by (done || apply wf_tabulate).
  cbn [mbind result_bind]. rewrite Hor. cbn [raise_none mbind result_bind].
  rewrite Hpick. cbn [mbind result_bind]. rewrite Hdiff. cbn [mbind result_bind].
  unfold setitem0 at 1 2. cbn [full tabulate shape]. simpl (0 <? 1).
  cbn iota. rewrite Had, Hai. cbn [mbind result_bind mret result_ret].
  eexists _, _. split; [done|].
  split.
  - intros p d Hp Hdd. rewrite tget_tabulate by (apply in_range3; lia).
    eapply tget_setitem0 in Hsd as [_ ->]; [|done|lia|by repeat constructor].
    by rewrite !Nat.eqb_refl.
  - intros p Hp. rewrite tget_tabulate by (apply in_range2; lia).
    eapply tget_setitem0 in Hsi as [_ ->]; [|done|lia|by repeat constructor].
    by rewrite !Nat.eqb_refl.
Qed.
End single_item.

Lemma setitem0_shape {A} `{Inhabited A} (dst : tensor A) i src r :
  setitem0 dst i src = Ok r → shape r = shape dst.
Proof. by intros (? & ? & _ & _ & _ & ->)%setitem0_Ok. Qed.

Section independence.
Context {T : Type} `{Scalar T}.
Variable ch_dist : tensor T → tensor T → option (tensor nat).

Lemma enc_points_step_alone_inv bps x N P D P_x k st st' :
  shape bps = [1; P; D] → wf bps → shape x = [N; P_x; D] → k < N →
  alone ch_dist bps x N P D P_x k st →
  enc_points_step ch_dist bps x 1 N st k = Ok st' →
  alone ch_dist bps x N P D P_x (S k) st'.
Proof.
  intros Hb Hwf Hx Hk (Hd & Hi & Hrows) Hstep.
  destruct st as [deltas idxs], st' as [deltas' idxs']. cbn [fst snd] in *.
  pose proof Hstep as (d1 & i1 & H1 & Hd1 & Hi1)%(enc_points_step_alone _ _ _ N P D P_x);
    [|done..].
  apply enc_points_step_Ok in Hstep
    as (Y & X & idx & picked & diff & _ & _ & _ & _ & _ & Hsd & Hsi).
  unfold alone. cbn [fst snd]. split_and!.
  - by rewrite (setitem0_shape _ _ _ _ Hsd).
  - by rewrite (setitem0_shape _ _ _ _ Hsi).
  - intros n Hn. destruct (decide (n = k)) as [->|Hne]; [eauto|].
    destruct (Hrows n ltac:(lia)) as (d2 & i2 & H2 & Hd2 & Hi2).
    exists d2, i2. split_and!; [done| |].
    + intros p d Hp Hdd. rewrite Hd2 by done.
      eapply tget_setitem0 in Hsd as [_ ->]; [|done|lia|by repeat constructor].
      by replace (n =? k) with false by (symmetry; by apply Nat.eqb_neq).
    + intros p Hp. rewrite Hi2 by done.
      eapply tget_setitem0 in Hsi as [_ ->]; [|done|lia|by repeat constructor].
      by replace (n =? k) with false by (symmetry; by apply Nat.eqb_neq).
Qed.
Lemma enc_points_deltas_only self (x : tensor T) cb x' N P D deltas idxs :
  enc_points_loop ch_dist self x cb = Ok (x', (N, P, D), (deltas, idxs)) →
  enc_points ch_dist self x ["deltas"] None cb
  = Ok (<["ids" := VLong idxs]> (<["deltas" := VFloat deltas]> ∅)).
Proof.
  intros Hloop. unfold enc_points. rewrite Hloop. cbn [mbind result_bind].
  unfold enc_points_features.
  rewrite (bool_decide_eq_false_2 ("dists" ∈ ["deltas"])) by not_elem_solve.
  rewrite (bool_decide_eq_true_2 ("deltas" ∈ ["deltas"])) by elem_solve.
  rewrite (bool_decide_eq_false_2 ("closest" ∈ ["deltas"])) by not_elem_solve.
  rewrite (bool_decide_eq_false_2 ("features" ∈ ["deltas"])) by not_elem_solve.
  cbn [mbind result_bind]. by rewrite size_insert_pos.
Qed.

(** X13.  Batch independence.  With the object's own basis, item [n] of
    a batch is encoded as it is when [x[n : n + 1]] is encoded alone: the
    call on the single item succeeds, and its deltas and ids are row [n]
    of the deltas and ids of the batch.  Nothing is assumed of the oracle. *)
Theorem batch_independence self (x : tensor T) N P_x P D b n :
  shape (bps self) = [1; P; D] → wf (bps self) → shape x = [N; P_x; D] →
  enc_points ch_dist self x ["deltas"] None None = Ok b → n < N →
  ∃ deltas ids b1 deltas1 ids1,
    b !! "deltas" = Some (VFloat deltas) ∧ b !! "ids" = Some (VLong ids)
    ∧ slice0 x n (n + 1) = Ok (item x P_x D n)
    ∧ enc_points ch_dist self (item x P_x D n) ["deltas"] None None = Ok b1
    ∧ b1 !! "deltas" = Some (VFloat deltas1) ∧ b1 !! "ids" = Some (VLong ids1)
    ∧ (∀ p d, p < P → d < D → tget deltas1 [0; p; d] = tget deltas [n; p; d])
    ∧ (∀ p, p < P → tget ids1 [0; p] = tget ids [n; p]).
Proof.
  intros Hb Hwf Hx Henc Hn.
  apply enc_points_inv in Henc
    as (x' & N' & P' & D' & deltas & idxs & Hloop & _ & Hids & Hdl).
  pose proof Hloop as (Nb & Db & Px' & Hx' & Hb' & Hxs & Hrun)%enc_points_loop_Ok.
  unfold ndim in Hx'. rewrite Hx in Hx'. simpl in Hx'. subst x'.
  rewrite Hx in Hxs. injection Hxs as <- <- <-.
  cbn iota in Hb', Hrun. rewrite Hb in Hb'. injection Hb' as <- <- <-.
  eapply (for_each_seq_inv _ (alone ch_dist (bps self) x N P D P_x)) in Hrun.
  2:{ intros k s s' Hk Hs Hstep. by eapply enc_points_step_alone_inv. }
  2:{ split_and!; [done..|]. intros; lia. }
  destruct Hrun as (_ & _ & Hrows). cbn [fst snd] in Hrows.
  destruct (Hrows n Hn) as (d1 & i1 & H1 & Hd1 & Hi1).
  assert (enc_points_loop ch_dist self (item x P_x D n) None
          = Ok (item x P_x D n, (1, P, D), (d1, i1))) as Hl1.
  { unfold enc_points_loop, ndim. cbn [item tabulate shape length].
    change (2 <? 3) with true. cbn iota. rewrite Hb.
    change (shape (item x P_x D n)) with [1; P_x; D].
    cbn [unpack3 mbind result_bind seq for_each]. by rewrite H1. }
  exists deltas, idxs, (<["ids" := VLong i1]> (<["deltas" := VFloat d1]> ∅)), d1, i1.
  split_and!; [apply Hdl; elem_solve|done| | | | |done|done].
  - unfold slice0, item. rewrite Hx.
    replace ((n + 1) `min` N - n `min` N) with 1 by lia.
    by replace (n `min` N) with n by lia.
  - by eapply enc_points_deltas_only.
  - by rewrite lookup_insert_ne, lookup_insert_eq.
  - by rewrite lookup_insert_eq.
Qed.
End independence.

Section edges.
Context {T : Type} `{Scalar T}.
Variable ch_dist : tensor T → tensor T → option (tensor nat).
Variable mesh : Type.
Variable point2surface : list mesh → tensor T → option (tensor T).

(** X6.  A cloud without points cannot be encoded: with [P_x = 0], a
    non-empty batch and a non-empty basis, and an oracle that returns one
    index per basis point, the call fails in the first turn of the loop,
    with the oracle's failure or with the index error of [X[:, b2x_idx]]. *)
Theorem empty_cloud_fails self (x : tensor T) ft xf cb Nb N P Db D :
  oracle_tensor ch_dist → oracle_shape ch_dist →
  shape (if cb is Some c then c else bps self) = [Nb; P; Db] → Nb = N ∨ Nb = 1 →
  shape x = [N; 0; D] → N ≠ 0 → P ≠ 0 →
  enc_points ch_dist self x ft xf cb = Err OracleFailure
  ∨ enc_points ch_dist self x ft xf cb = Err IndexError.
Proof.
  intros Hwf Hsh Hb HNb Hx HN HP.
  assert (∀ st, enc_points_step ch_dist (if cb is Some c then c else bps self)
                  x Nb N st 0 = Err OracleFailure
                ∨ enc_points_step ch_dist (if cb is Some c then c else bps self)
                    x Nb N st 0 = Err IndexError) as Hstep.
  { intros [deltas idxs]. unfold enc_points_step.
    destruct (if Nb =? N then _ else _) as [Y|e] eqn:HY.
    2:{ exfalso. unfold slice0 in HY. rewrite Hb in HY. by destruct (Nb =? N). }
    apply (basis_item_Y _ Nb N P Db) in HY as [HYs _]; [|done|done|lia].
    cbn [mbind result_bind]. unfold slice0. rewrite Hx. cbn [mbind result_bind].
    destruct (ch_dist Y _) as [idx|] eqn:Hor; cbn [raise_none mbind result_bind];
      [|by left].
    right. pose proof (Hsh _ _ _ _ _ _ HYs Hor) as Hidx.
    pose proof (Hwf _ _ _ Hor) as Hidxwf. unfold wf in Hidxwf.
    rewrite Hidx in Hidxwf. simpl in Hidxwf.
    unfold index1. cbn [tabulate shape].
    destruct (data idx) as [|i l]; [simpl in Hidxwf; lia|]. done. }
  unfold enc_points, enc_points_loop, ndim. rewrite Hx. simpl. rewrite Hb, Hx. simpl.
  destruct N as [|N']; [done|]. cbn [seq for_each].
  destruct (Hstep (full [S N'; P; D] zero, full [S N'; P] 0)) as [-> | ->]; auto.
Qed.

Lemma gather1_empty {A} `{Inhabited A} (x : tensor A) (e : tensor nat) N P_x D P F :
  shape x = [N; P_x; D] → shape e = [N; P; F] → N = 0 ∨ P = 0 →
  gather1 x e = Ok (tabulate [N; P; F] (λ o, tget x (<[1 := tget e o]> o))).
Proof.
  intros Hx He Hz. unfold gather1. rewrite Hx, He.
  replace (numel [N; P; F] =? 0) with true; [done|].
  symmetry. apply Nat.eqb_eq. simpl. destruct Hz as [-> | ->]; lia.
Qed.

(** X11.  What the ['features'] branch computes.  Of [x_features] only the
    size [F] of its third dimension is used.  When [F <= D], or when there
    is nothing to gather (an empty batch or an empty basis), the returned
    ['features'] have shape [[N, P, F]] and hold the first [F] coordinates
    of the matched input points, [x[n, ids[n, p], j]]; when [F > D] and
    there is something to gather, the call raises "No x_features parameter
    is provided!" although [x_features] was given. *)
Theorem features_are_coordinates self x ft (t : tensor T) cb x' N P D deltas idxs F :
  oracle_tensor ch_dist → "features" ∈ ft →
  enc_points_loop ch_dist self x cb = Ok (x', (N, P, D), (deltas, idxs)) →
  shape t !! 2 = Some F →
  (F ≤ D ∨ N = 0 ∨ P = 0 →
     ∃ b f, enc_points ch_dist self x ft (Some t) cb = Ok b
       ∧ b !! "features" = Some (VFloat f) ∧ shape f = [N; P; F]
       ∧ ∀ n p j, n < N → p < P → j < F →
           tget f [n; p; j] = tget x' [n; tget idxs [n; p]; j])
  ∧ (D < F → N ≠ 0 → P ≠ 0 →
     enc_points ch_dist self x ft (Some t) cb = Err (ValueError msg_no_x_features)).
Proof.
  intros Hwf Hft Hloop HF.
  destruct (enc_points_loop_filled _ _ _ _ _ _ _ _ _ _ Hwf Hloop) as (P_x & Hx & Hfill).
  pose proof (enc_points_features_filled x' N P D P_x deltas idxs ft (Some t)
                Hx Hfill Hft) as Hst.
  destruct Hfill as (_ & Hi & Hlt). cbn [fst snd] in *.
  destruct (expand_ids idxs N P F P_x Hi Hlt) as (v & e & Hv & He & Hes & Hall & Hev).
  unfold gather_features in Hst. cbn [raise_none mbind result_bind] in Hst.
  rewrite HF in Hst. cbn [raise_none mbind result_bind] in Hst.
  rewrite Hv in Hst. cbn [mbind result_bind] in Hst.
  rewrite He in Hst. cbn [mbind result_bind] in Hst.
  unfold enc_points. rewrite Hloop. cbn [mbind result_bind]. split.
  - intros HFD.
    assert (gather1 x' e
            = Ok (tabulate [N; P; F] (λ o, tget x' (<[1 := tget e o]> o)))) as Hg.
    { destruct HFD as [HFD|HFD];
        [by apply (gather1_intro x' e N P_x D P F)
        |by apply (gather1_empty x' e N P_x D P F)]. }
    rewrite Hg in Hst.
    destruct Hst as (b & Hb & Hbf). exists b. eexists. split_and!; [done..|].
    intros n p j Hn Hp Hj. rewrite tget_tabulate by by apply in_range3.
    simpl. by rewrite Hev.
  - intros HFD HN HP. unfold gather1 in Hst. rewrite Hx, Hes in Hst.
    replace (numel [N; P; F] =? 0) with false in Hst.
    2:{ symmetry. apply Nat.eqb_neq. unfold numel. cbn [foldr].
        repeat (apply Nat.neq_mul_0; split; [lia|]). lia. }
    simpl in Hst.
    replace (F <=? D) with false in Hst by (symmetry; apply Nat.leb_gt; lia).
    by rewrite andb_false_r in Hst.
Qed.

(** X15.  What [enc_mesh] asks of the point-to-surface oracle for a
    non-empty batch of [N] meshes and a basis of shape [[1, P, D]]: points
    of shape [[N, P, D]], every item the basis multiplied by 1000.  What it
    returns is then decided by the oracle's answer alone. *)
Theorem enc_mesh_scaled_basis self (m : mesh) ms ft cb P D :
  shape (if cb is Some c then c else bps self) = [1; P; D] →
  wf (if cb is Some c then c else bps self) →
  ∃ points,
    shape points = [length (m :: ms); P; D]
    ∧ (∀ n p d, n < length (m :: ms) → p < P → d < D →
         tget points [n; p; d]
         = mul (tget (if cb is Some c then c else bps self) [0; p; d]) thousand)
    ∧ (enc_mesh mesh point2surface self (m :: ms) ft cb).2
      = (b2o ← raise_none OracleFailure (point2surface (m :: ms) points);
         d ← reshape_infer b2o [length (m :: ms)] [];
         Ok {["dists" := VFloat d]}).
Proof.
  intros Hb Hwf. set (basis := if cb is Some c then c else bps self) in *.
  unfold enc_mesh. fold basis. cbn [lookup list_lookup raise_none mbind result_bind].
  unfold repeat3, ndim. cbn [tmap shape]. rewrite Hb.
  cbn [length Nat.sub Nat.ltb Nat.leb replicate app].
  exists (tabulate [1 * S (length ms); P; D]
            (λ o, match o with
                  | [] => inhabitant
                  | i :: r => tget (tmap (λ a : T, mul a thousand) basis)
                                (drop 0 (i `mod` 1 :: r))
                  end)).
  split_and!; last first.
  - cbn [mbind result_bind].
    destruct (point2surface _ _); cbn [raise_none mbind result_bind fst snd]; done.
  - intros n p d Hn Hp Hd.
    rewrite tget_tabulate by (apply in_range3; simpl in *; lia).
    rewrite Nat.mod_1_r. cbn [drop].
    rewrite tget_tmap; [done|done|rewrite Hb; apply in_range3; lia].
  - cbn [tabulate shape]. f_equal. simpl. lia.
Qed.

(** X16.  What [enc_mesh] returns: for an empty batch it fails with the
    index error of [x[0]] before anything else; when the oracle fails it
    fails with the oracle's failure and prints nothing; when the oracle
    returns distances of shape [[N, P]] the bundle holds them unchanged
    under ['dists']. *)
Theorem enc_mesh_returns self (m : mesh) ms ft cb points :
  repeat3 (tmap (λ a, mul a thousand) (if cb is Some c then c else bps self))
          (length (m :: ms)) = Ok points →
  enc_mesh mesh point2surface self [] ft cb = ([], Err IndexError)
  ∧ (point2surface (m :: ms) points = None →
       (enc_mesh mesh point2surface self (m :: ms) ft cb) = ([], Err OracleFailure))
  ∧ (∀ b2o P, point2surface (m :: ms) points = Some b2o →
       shape b2o = [length (m :: ms); P] →
       (enc_mesh mesh point2surface self (m :: ms) ft cb).2
       = Ok {["dists" := VFloat b2o]}).
Proof.
  intros Hpts. split_and!; [done| |].
  - intros Hor. unfold enc_mesh. cbn [lookup list_lookup raise_none mbind result_bind].
    rewrite Hpts. cbn [mbind result_bind]. by rewrite Hor.
  - intros b2o P Hor Hs. unfold enc_mesh.
    cbn [lookup list_lookup raise_none mbind result_bind].
    rewrite Hpts. cbn [mbind result_bind]. rewrite Hor.
    cbn [raise_none mbind result_bind snd].
    unfold reshape_infer. rewrite Hs.
    set (N := length (m :: ms)). assert (N ≠ 0) by (subst N; simpl; lia).
    cbn [numel foldr app].
    replace (N * 1 * 1 =? 0) with false by (symmetry; apply Nat.eqb_neq; lia).
    replace (N * (P * 1) mod (N * 1 * 1)) with 0; cycle 1.
    { replace (N * (P * 1)) with (P * (N * 1 * 1)) by lia.
      by rewrite Nat.Div0.mod_mul. }
    replace (N * (P * 1) / (N * 1 * 1)) with P; cycle 1.
    { replace (N * (P * 1)) with (P * (N * 1 * 1)) by lia.
      rewrite Nat.div_mul; lia. }
    cbn [Nat.eqb mbind result_bind]. do 3 f_equal.
    destruct b2o as [s l]. simpl in *. by subst s.
Qed.
End edges.

Lemma for_each_Err {St I} (body : St → I → result St) s l e :
  for_each body s l = Err e → ∃ s' i, body s' i = Err e.
Proof.
  revert s. induction l as [|i l IH]; intros s Hf; simpl in Hf; [done|].
  destruct (body s i) as [s'|e'] eqn:Hb; simpl in Hf; [by eapply IH|].
  injection Hf as <-. eauto.
Qed.

Lemma bind_Err {A B} (r : result A) (f : A → result B) e :
  r ≫= f = Err e → r = Err e ∨ ∃ a, r = Ok a ∧ f a = Err e.
Proof. destruct r as [a|e']; simpl; [eauto|]. intros [= <-]. by left. Qed.

Section torch_errors.
Context {A : Type} `{Inhabited A}.

Lemma slice0_Err (t : tensor A) lo hi e : slice0 t lo hi = Err e → e = IndexError.
Proof. unfold slice0. destruct (shape t); congruence. Qed.

Lemma index1_Err (t : tensor A) idx e : index1 t idx = Err e → e = IndexError.
Proof.
  unfold index1. destruct (shape t) as [|? [|? ?]]; try congruence.
  destruct (forallb _ _); congruence.
Qed.

Lemma tzip_Err f (a b : tensor A) e : tzip f a b = Err e → e = RuntimeError.
Proof. unfold tzip. destruct (broadcast_shapes _ _); congruence. Qed.

Lemma setitem0_Err (dst : tensor A) i src e :
  setitem0 dst i src = Err e → e = RuntimeError ∨ e = IndexError.
Proof.
  unfold setitem0. destruct (shape dst); [intros [= <-]; by right|].
  destruct (_ <? _); [|intros [= <-]; by right].
  destruct (assignable_rev _ _); [done|]. intros [= <-]. by left.
Qed.

Lemma repeat3_Err (t : tensor A) n e : repeat3 t n = Err e → e = RuntimeError.
Proof.
  unfold repeat3. destruct (_ <? _); [congruence|].
  destruct (_ ++ _); congruence.
Qed.

End torch_errors.

Lemma unpack3_Err s e :
  unpack3 s = Err e →
  length s ≠ 3
  ∧ ∃ msg, e = ValueError msg
      ∧ msg ∈ ["too many values to unpack (expected 3)";
               "not enough values to unpack (expected 3, got 0)";
               "not enough values to unpack (expected 3, got 1)";
               "not enough values to unpack (expected 3, got 2)"].
Proof.
  destruct s as [|? [|? [|? [|? ?]]]]; simpl; intros [= <-];
    (split; [done|]); eexists; (split; [done|]); elem_solve.
Qed.

Section error_kinds.
Context {T : Type} `{Scalar T}.
Variable ch_dist : tensor T → tensor T → option (tensor nat).
Variable mesh : Type.
Variable point2surface : list mesh → tensor T → option (tensor T).

Lemma enc_points_step_Err bps x Nb N st k e :
  enc_points_step ch_dist bps x Nb N st k = Err e → configuration_error e = false.
Proof.
  destruct st as [deltas idxs]. unfold enc_points_step. intros He.
  repeat match type of He with
  | _ ≫= _ = Err _ => apply bind_Err in He as [He|(? & _ & He)]
  end.
  - destruct (Nb =? N); [by apply slice0_Err in He as ->|done].
  - by apply slice0_Err in He as ->.
  - destruct (ch_dist _ _); simpl in He; [done|]. by injection He as <-.
  - by apply index1_Err in He as ->.
  - by apply tzip_Err in He as ->.
  - by apply setitem0_Err in He as [-> | ->].
  - by apply setitem0_Err in He as [-> | ->].
  - done.
Qed.

(** A [ValueError] before the end of the loop comes from unpacking the
    shape of the basis or of the promoted input. *)
Lemma enc_points_loop_value_errors self x cb msg :
  enc_points_loop ch_dist self x cb = Err (ValueError msg) →
  (ndim (if cb is Some c then c else bps self) ≠ 3 ∨ ndim x ≠ 2 ∧ ndim x ≠ 3)
  ∧ msg ∈ ["too many values to unpack (expected 3)";
           "not enough values to unpack (expected 3, got 0)";
           "not enough values to unpack (expected 3, got 1)";
           "not enough values to unpack (expected 3, got 2)"].
Proof.
  unfold enc_points_loop. intros He.
  apply bind_Err in He as [He|([[Nb P] Db] & _ & He)].
  { apply unpack3_Err in He as (Hl & m & [= <-] & Hm). split; [by left|done]. }
  apply bind_Err in He as [He|([[N Px] D] & _ & He)].
  { apply unpack3_Err in He as (Hl & m & [= <-] & Hm). split; [right|done].
    unfold ndim in *.
    destruct (2 <? length (shape x)) eqn:E; simpl in Hl;
      [apply Nat.ltb_lt in E|apply Nat.ltb_ge in E]; lia. }
  apply bind_Err in He as [He|(? & _ & He)]; [|done].
  apply for_each_Err in He as (s' & i & He).
  by apply enc_points_step_Err in He.
Qed.

(** A [ValueError] after the loop is one of the two that [enc_points]
    raises itself, each for its own reason. *)
Lemma enc_points_features_value_errors (x : tensor T) N P D deltas idxs ft xf msg :
  enc_points_features x N P D deltas idxs ft xf = Err (ValueError msg) →
  "features" ∈ ft ∧ msg = msg_no_x_features
  ∨ (("dists" ∉ ft) ∧ ("deltas" ∉ ft) ∧ ("closest" ∉ ft) ∧ ("features" ∉ ft))
    ∧ msg = msg_invalid_cell.
Proof.
  unfold enc_points_features. intros He.
  apply bind_Err in He as [He|(m1 & H1 & He)].
  { destruct (bool_decide ("dists" ∈ ft)); [|done].
    apply bind_Err in He as [He|(? & _ & He)]; [|done].
    unfold tsum in He. by destruct (_ !! 2). }
  apply bind_Err in He as [He|(m2 & H2 & He)].
  { by destruct (bool_decide ("deltas" ∈ ft)). }
  apply bind_Err in He as [He|(m3 & H3 & He)].
  { destruct (bool_decide ("closest" ∈ ft)); [|done].
    apply bind_Err in He as [He|(? & _ & He)].
    { unfold view in He. by destruct (_ =? _). }
    apply bind_Err in He as [He|(? & _ & He)].
    { unfold expand in He. by destruct (expandable_rev _ _). }
    apply bind_Err in He as [He|(? & _ & He)]; [|done].
    unfold gather1 in He. destruct (shape x) as [|? [|? ?]]; try done.
    destruct (_ =? 0); [done|]. by destruct (_ && _). }
  apply bind_Err in He as [He|(m4 & H4 & He)].
  { destruct (bool_decide ("features" ∈ ft)) eqn:Hf; [|done].
    apply bool_decide_eq_true_1 in Hf.
    destruct (gather_features _ _ _ _ _); [done|]. injection He as <-. auto. }
  destruct (size m4 <? 1) eqn:Hsz; [|done]. injection He as <-. right.
  split; [|done].
  destruct (bool_decide ("features" ∈ ft)) eqn:E4.
  { destruct (gather_features _ _ _ _ _); [|done]. injection H4 as <-.
    by rewrite size_insert_pos in Hsz. }
  injection H4 as <-.
  destruct (bool_decide ("closest" ∈ ft)) eqn:E3.
  { apply bind_Ok in H3 as (? & _ & H3). apply bind_Ok in H3 as (? & _ & H3).
    apply bind_Ok in H3 as (? & _ & [= <-]). by rewrite size_insert_pos in Hsz. }
  injection H3 as <-.
  destruct (bool_decide ("deltas" ∈ ft)) eqn:E2.
  { injection H2 as <-. by rewrite size_insert_pos in Hsz. }
  injection H2 as <-.
  destruct (bool_decide ("dists" ∈ ft)) eqn:E1.
  { apply bind_Ok in H1 as (? & _ & [= <-]). by rewrite size_insert_pos in Hsz. }
  by apply bool_decide_eq_false_1 in E1, E2, E3, E4.
Qed.

Lemma enc_mesh_Err self ms ft cb e :
  (enc_mesh mesh point2surface self ms ft cb).2 = Err e →
  e = IndexError ∧ ms = [] ∨ e = RuntimeError ∨ e = OracleFailure.
Proof.
  unfold enc_mesh. intros He.
  destruct (_ ≫= _) as [b2o|e'] eqn:Hb; cbn [snd] in He.
  - apply bind_Err in He as [He|(? & _ & He)]; [|done].
    apply reshape_infer_Err in He as ->. auto.
  - injection He as ->.
    apply bind_Err in Hb as [Hb|(? & _ & Hb)].
    { destruct ms; simpl in Hb; [|done]. injection Hb as <-. auto. }
    apply bind_Err in Hb as [Hb|(? & _ & Hb)].
    { apply repeat3_Err in Hb as ->. auto. }
    destruct (point2surface _ _); simpl in Hb; [done|]. injection Hb as <-. auto.
Qed.

(** X18.  Every [ValueError] of [enc_points] has its own cause.  An
    unpacking error is raised only for a basis that does not have three
    dimensions or an input that has neither two nor three; "No x_features
    parameter is provided!" only when ['features'] is requested; "Invalid
    cell type ..." only when none of ['dists'], ['deltas'], ['closest'],
    ['features'] is requested.  There is no other. *)
Theorem enc_points_configuration_errors self x ft xf cb msg :
  enc_points ch_dist self x ft xf cb = Err (ValueError msg) →
  (ndim (if cb is Some c then c else bps self) ≠ 3 ∨ ndim x ≠ 2 ∧ ndim x ≠ 3)
  ∧ msg ∈ ["too many values to unpack (expected 3)";
           "not enough values to unpack (expected 3, got 0)";
           "not enough values to unpack (expected 3, got 1)";
           "not enough values to unpack (expected 3, got 2)"]
  ∨ "features" ∈ ft ∧ msg = msg_no_x_features
  ∨ (("dists" ∉ ft) ∧ ("deltas" ∉ ft) ∧ ("closest" ∉ ft) ∧ ("features" ∉ ft))
    ∧ msg = msg_invalid_cell.
Proof.
  unfold enc_points. intros He.
  apply bind_Err in He as [He|([[x' [[N P] D]] [deltas idxs]] & _ & He)].
  - left. by apply enc_points_loop_value_errors.
  - right. by apply (enc_points_features_value_errors x' N P D deltas idxs ft xf).
Qed.

(** X19.  [encode] fails with "Invalid input: ..." exactly when its
    input is neither a tensor nor a batch of meshes: neither [enc_points]
    nor [enc_mesh] raises that error. *)
Theorem encode_invalid_input self (x : input mesh) ft xf cb out r :
  encode ch_dist mesh point2surface self x ft xf cb = (out, r) →
  (r = Err (ValueError msg_invalid_input) ↔ x = Other mesh).
Proof.
  intros He. split.
  - intros ->. destruct x as [x|ms|]; [| |done]; exfalso; simpl in He.
    + injection He as _ He. unfold enc_points in He.
      apply bind_Err in He as [He|([[x' [[N P] D]] [deltas idxs]] & _ & He)].
      * apply enc_points_loop_value_errors in He as [_ Hm].
        revert Hm. not_elem_solve.
      * by apply enc_points_features_value_errors in He as [[_ ?]|[_ ?]].
    + assert ((enc_mesh mesh point2surface self ms ft cb).2
              = Err (ValueError msg_invalid_input)) as Hm by by rewrite He.
      by apply enc_mesh_Err in Hm as [[? _]|[?|?]].
  - intros ->. simpl in He. by injection He as _ <-.
Qed.
End error_kinds.

(** ** The further properties at concrete inputs *)

(** X1 at a custom basis of three points in the plane. *)
Lemma init_basis_shape_witness :
  2 ≠ 0 ∧ ∃ P, shape (bps (BpsTorch (Tensor [1; 3; 2] (data Ref.cloud)))) = [1; P; 2].
Proof.
  apply (init_basis_shape (T := Z) Ref.no_sampler Ref.no_sampler
           Ref.sample_grid_cube Ref.no_sampler Ref.np_power
           "grid_sphere" 4 1%Z 2 13%Z false (Some Ref.cloud)).
  reflexivity.
Defined.

(** X3 at the unbatched custom basis [Ref.cloud], of shape [[3, 2]]. *)
Lemma custom_basis_needs_batch_witness :
  (∃ msg, enc_points Ref.nearest Ref.basis Ref.clouds ["dists"] None (Some Ref.cloud)
          = Err (ValueError msg))
  ∧ (∃ msg, decode Ref.basis Ref.clouds (Some Ref.cloud) = Err (ValueError msg)).
Proof.
  apply (custom_basis_needs_batch Ref.nearest Ref.basis Ref.clouds ["dists"] None
           Ref.cloud).
  vm_compute. lia.
Defined.

(** X4 at an input of one dimension. *)
Lemma input_rank_witness :
  (∃ msg, enc_points Ref.nearest Ref.basis Ref.line ["dists"] None None
          = Err (ValueError msg))
  ∧ (∃ msg, decode Ref.basis Ref.line None = Err (ValueError msg)).
Proof.
  apply (input_rank Ref.nearest Ref.basis Ref.line ["dists"] None None 1 2 2);
    [reflexivity|vm_compute; lia..].
Defined.

(** X5 at an oracle that always fails and a request that names no
    feature. *)
Lemma oracle_failure_first_witness :
  enc_points Ref.silent Ref.basis Ref.clouds ["volume"] None None = Err OracleFailure.
Proof.
  apply (oracle_failure_first Ref.silent Ref.basis Ref.clouds ["volume"] None None
           1 2 2 2 3 2); [reflexivity|reflexivity|lia|reflexivity].
Defined.

(** X6 at a batch of one cloud without points. *)
Lemma empty_cloud_fails_witness :
  enc_points Ref.nearest Ref.basis Ref.empty_cloud ["dists"] None None
  = Err OracleFailure
  ∨ enc_points Ref.nearest Ref.basis Ref.empty_cloud ["dists"] None None
    = Err IndexError.
Proof.
  apply (empty_cloud_fails Ref.nearest Ref.basis Ref.empty_cloud ["dists"] None None
           1 1 2 2 2 nearest_tensor nearest_shape);
    [reflexivity|lia|reflexivity|lia|lia].
Defined.

(** X7 at [Ref.clouds]. *)
Lemma ids_in_range_witness :
  ∃ ids N P P_x D Nb Db,
    Ref.encoded !! "ids" = Some (VLong ids)
    ∧ shape Ref.clouds = [N; P_x; D]
    ∧ shape (bps Ref.basis) = [Nb; P; Db]
    ∧ shape ids = [N; P]
    ∧ ∀ n p, n < N → p < P → tget ids [n; p] < P_x.
Proof.
  refine (ids_in_range Ref.nearest Ref.basis Ref.clouds ["deltas"] None None
            Ref.encoded nearest_tensor _).
  vm_compute. reflexivity.
Defined.

(** X8 at [Ref.clouds] and the shared basis. *)
Lemma deltas_are_offsets_witness :
  ∃ deltas ids,
    Ref.encoded !! "deltas" = Some (VFloat deltas)
    ∧ Ref.encoded !! "ids" = Some (VLong ids)
    ∧ shape deltas = [2; 2; 2]
    ∧ ∀ n p d, n < 2 → p < 2 → d < 2 →
        tget deltas [n; p; d]
        = Z.sub (tget Ref.clouds [n; tget ids [n; p]; d])
                (tget (bps Ref.basis) [basis_row 1 2 n; p; d]).
Proof.
  refine (deltas_are_offsets (T := Z) (H := Z_scalar) Ref.nearest Ref.basis Ref.clouds
            ["deltas"] None None Ref.encoded 1 2 2 3 2
            nearest_tensor nearest_shape eq_refl _ eq_refl _ _).
  - right. reflexivity.
  - elem_solve.
  - vm_compute. reflexivity.
Defined.

(** X9 at [Ref.clouds] and the shared basis. *)
Lemma dists_are_norms_witness :
  ∃ dists ids,
    Ref.encoded_all !! "dists" = Some (VFloat dists)
    ∧ Ref.encoded_all !! "ids" = Some (VLong ids)
    ∧ shape dists = [2; 2]
    ∧ ∀ n p, n < 2 → p < 2 →
        tget dists [n; p]
        = sqrt (foldr add zero
                  ((λ d, let off :=
                           sub (tget Ref.clouds [n; tget ids [n; p]; d])
                               (tget (bps Ref.basis) [basis_row 1 2 n; p; d]) in
                         mul off off) <$> seq 0 2)).
Proof.
  refine (dists_are_norms (T := Z) (H := Z_scalar) Ref.nearest Ref.basis Ref.clouds
            ["dists"; "deltas"; "closest"] None None Ref.encoded_all 1 2 2 3 2
            nearest_tensor nearest_shape eq_refl _ eq_refl _ _).
  - right. reflexivity.
  - elem_solve.
  - vm_compute. reflexivity.
Defined.

(** X10 at [Ref.clouds]. *)
Lemma closest_is_matched_point_witness :
  ∃ ids closest closest_ids N P P_x D,
    Ref.encoded_all !! "ids" = Some (VLong ids)
    ∧ Ref.encoded_all !! "closest" = Some (VFloat closest)
    ∧ Ref.encoded_all !! "closest_ids" = Some (VLong closest_ids)
    ∧ shape Ref.clouds = [N; P_x; D]
    ∧ shape closest = [N; P; D] ∧ shape closest_ids = [N; P; D]
    ∧ ∀ n p d, n < N → p < P → d < D →
        tget closest_ids [n; p; d] = tget ids [n; p]
        ∧ tget closest [n; p; d] = tget Ref.clouds [n; tget ids [n; p]; d].
Proof.
  refine (closest_is_matched_point Ref.nearest Ref.basis Ref.clouds
            ["dists"; "deltas"; "closest"] None None Ref.encoded_all
            nearest_tensor _ _).
  - elem_solve.
  - vm_compute. reflexivity.
Defined.

(** X11 at [Ref.clouds] with one feature per point. *)
Lemma features_are_coordinates_witness :
  (1 ≤ 2 ∨ 2 = 0 ∨ 2 = 0 →
     ∃ b f, enc_points Ref.nearest Ref.basis Ref.clouds ["features"] (Some Ref.side) None
            = Ok b
       ∧ b !! "features" = Some (VFloat f) ∧ shape f = [2; 2; 1]
       ∧ ∀ n p j, n < 2 → p < 2 → j < 1 →
           tget f [n; p; j]
           = tget Ref.clouds [n; tget (Tensor [2; 2] [0; 1; 2; 2]) [n; p]; j])
  ∧ (2 < 1 → 2 ≠ 0 → 2 ≠ 0 →
     enc_points Ref.nearest Ref.basis Ref.clouds ["features"] (Some Ref.side) None
     = Err (ValueError msg_no_x_features)).
Proof.
  refine (features_are_coordinates Ref.nearest Ref.basis Ref.clouds ["features"]
            Ref.side None Ref.clouds 2 2 2
            (Tensor [2; 2; 2] [1; 1; -1; -1; 0; 1; -10; -9]%Z)
            (Tensor [2; 2] [0; 1; 2; 2]) 1 nearest_tensor _ _ eq_refl).
  - elem_solve.
  - vm_compute. reflexivity.
Defined.

(** X12 at [Ref.clouds] and a custom basis with one item per cloud. *)
Lemma custom_basis_round_trip_witness :
  ∃ deltas ids out,
    Ref.encoded_custom !! "deltas" = Some (VFloat deltas)
    ∧ Ref.encoded_custom !! "ids" = Some (VLong ids)
    ∧ decode Ref.basis deltas (Some Ref.per_item) = Ok out ∧ shape out = [2; 2; 2]
    ∧ ∀ n p d, n < 2 → p < 2 → d < 2 →
        tget out [n; p; d] = tget Ref.clouds [n; tget ids [n; p]; d].
Proof.
  refine (custom_basis_round_trip (T := Z) (H := Z_scalar) Ref.nearest eq
            (λ a b : Z, Zplus_minus b a)
            Ref.basis Ref.clouds ["deltas"] None (Some Ref.per_item)
            Ref.encoded_custom 2 2 2 3 2
            nearest_tensor nearest_shape eq_refl _ eq_refl _ _).
  - left. reflexivity.
  - elem_solve.
  - vm_compute. reflexivity.
Defined.

(** X13 at the second cloud of [Ref.clouds]. *)
Lemma batch_independence_witness :
  ∃ deltas ids b1 deltas1 ids1,
    Ref.encoded !! "deltas" = Some (VFloat deltas)
    ∧ Ref.encoded !! "ids" = Some (VLong ids)
    ∧ slice0 Ref.clouds 1 (1 + 1) = Ok (item Ref.clouds 3 2 1)
    ∧ enc_points Ref.nearest Ref.basis (item Ref.clouds 3 2 1) ["deltas"] None None
      = Ok b1
    ∧ b1 !! "deltas" = Some (VFloat deltas1) ∧ b1 !! "ids" = Some (VLong ids1)
    ∧ (∀ p d, p < 2 → d < 2 → tget deltas1 [0; p; d] = tget deltas [1; p; d])
    ∧ (∀ p, p < 2 → tget ids1 [0; p] = tget ids [1; p]).
Proof.
  refine (batch_independence Ref.nearest Ref.basis Ref.clouds 2 3 2 2 Ref.encoded 1
            eq_refl eq_refl eq_refl _ _).
  - vm_compute. reflexivity.
  - lia.
Defined.

(** X14 at deltas for the two basis points. *)
Lemma decode_unbatched_witness :
  ∃ out, decode Ref.basis Ref.offsets None = Ok out ∧ shape out = [1; 2; 2]
    ∧ ∀ p d, p < 2 → d < 2 →
        tget out [0; p; d]
        = Z.add (tget (bps Ref.basis) [0; p; d]) (tget Ref.offsets [p; d]).
Proof.
  apply (decode_unbatched (T := Z) (H := Z_scalar) Ref.basis Ref.offsets 2 2);
    reflexivity.
Defined.

(** X15 at a batch of two meshes. *)
Lemma enc_mesh_scaled_basis_witness :
  ∃ points,
    shape points = [2; 2; 2]
    ∧ (∀ n p d, n < 2 → p < 2 → d < 2 →
         tget points [n; p; d] = Z.mul (tget (bps Ref.basis) [0; p; d]) 1000)
    ∧ (enc_mesh unit Ref.surface Ref.basis [(); ()] ["dists"] None).2
      = (b2o ← raise_none OracleFailure (Ref.surface [(); ()] points);
         d ← reshape_infer b2o [2] [];
         Ok {["dists" := VFloat d]}).
Proof.
  apply (enc_mesh_scaled_basis (T := Z) (H := Z_scalar) unit Ref.surface Ref.basis
           () [()] ["dists"] None 2 2); reflexivity.
Defined.

(** X16 at one mesh. *)
Lemma enc_mesh_returns_witness :
  enc_mesh unit Ref.surface Ref.basis [] ["dists"] None = ([], Err IndexError)
  ∧ (Ref.surface [()] (Tensor [1; 2; 2] [0; 0; 10000; 10000]%Z) = None →
       enc_mesh unit Ref.surface Ref.basis [()] ["dists"] None
       = ([], Err OracleFailure))
  ∧ (∀ b2o P,
       Ref.surface [()] (Tensor [1; 2; 2] [0; 0; 10000; 10000]%Z) = Some b2o →
       shape b2o = [1; P] →
       (enc_mesh unit Ref.surface Ref.basis [()] ["dists"] None).2
       = Ok {["dists" := VFloat b2o]}).
Proof.
  apply (enc_mesh_returns (T := Z) (H := Z_scalar) unit Ref.surface Ref.basis
           () [] ["dists"] None).
  vm_compute. reflexivity.
Defined.

(** X18 at the request [['ids']]. *)
Lemma enc_points_configuration_errors_witness :
  (ndim (bps Ref.basis) ≠ 3 ∨ ndim Ref.clouds ≠ 2 ∧ ndim Ref.clouds ≠ 3)
  ∧ msg_invalid_cell ∈ ["too many values to unpack (expected 3)";
                        "not enough values to unpack (expected 3, got 0)";
                        "not enough values to unpack (expected 3, got 1)";
                        "not enough values to unpack (expected 3, got 2)"]
  ∨ "features" ∈ ["ids"] ∧ msg_invalid_cell = msg_no_x_features
  ∨ (("dists" ∉ ["ids"]) ∧ ("deltas" ∉ ["ids"]) ∧ ("closest" ∉ ["ids"])
     ∧ ("features" ∉ ["ids"]))
    ∧ msg_invalid_cell = msg_invalid_cell.
Proof.
  apply (enc_points_configuration_errors Ref.nearest Ref.basis Ref.clouds ["ids"]
           None None).
  vm_compute. reflexivity.
Defined.

(** X19 at an input that is neither a tensor nor a batch of meshes. *)
Lemma encode_invalid_input_witness :
  @Err (bundle Z) (ValueError msg_invalid_input) = Err (ValueError msg_invalid_input)
  ↔ @Other Z unit = Other unit.
Proof.
  apply (encode_invalid_input (T := Z) (H := Z_scalar) Ref.nearest unit Ref.surface
           Ref.basis (@Other Z unit) ["dists"] None None []).
  reflexivity.
Defined.
